(** * JSAutoMail: the idempotent certificate delivery pipeline of [index.js]

    A shallow embedding of [index.js], the variant that reads the roster
    from the remote sheet and keeps a ledger: the ledger of sent e-mails
    ([loadSentEmails], [addSentEmail]), the roster reader ([lerCSV]), the
    certificate renderer ([gerarPDF], [gerarCertificados]) and the
    dispatcher ([enviarCertificadosPorEmail]), composed by [main]. The
    start-up check [verificarRequisitos] and the [mapHeaders] callback
    follow, and, in [LocalVariant], the earlier variant of the program
    that reads a local [data.csv] and keeps no ledger.

    Conventions of the embedding.
    - A JavaScript string is a [string] whose characters are UTF-16 code
      units in the range 0..255 (the Latin-1 part of the BMP).  On that range
      [trim] and [toLowerCase] below are the ECMAScript functions.
    - A value that is either a string or [undefined] is an [option string].
    - A [Set] of strings is a [gset string]; a row object produced by the CSV
      parser is a [gmap string string].
    - The CSV parser, the rendering engine, the mail transport and the file
      system are libraries outside the program. They are modelled by what
      they hand to it: the rows and the closing event of the parser, and,
      read from an environment [Env] indexed by the position in the loop
      that asks, whether a call returns or throws.
    - Side effects that the claims talk about are collected in a trace of
      [event]s, in program order. *)

From Stdlib Require Import Ascii Bool Arith NArith Lia.
From stdpp Require Import base option list gmap strings.

(** ** ECMAScript strings *)

Module JsString.

(** Line feed, the separator used by the ledger file. *)
Definition LF : ascii := "010"%char.

(** WhiteSpace and LineTerminator code units below 256:
    TAB, LF, VT, FF, CR, SP and NBSP. *)
Definition is_whitespace (c : ascii) : bool :=
  match N_of_ascii c with
  | 9 | 10 | 11 | 12 | 13 | 32 | 160 => true
  | _ => false
  end%N.

(** Lower-case mapping of one code unit: A..Z and the Latin-1 capitals
    U+00C0..U+00DE except the multiplication sign U+00D7. *)
Definition lower_char (c : ascii) : ascii :=
  let n := N_of_ascii c in
  if ((65 <=? n) && (n <=? 90))%N then ascii_of_N (n + 32)
  else if ((192 <=? n) && (n <=? 222) && negb (n =? 215))%N
       then ascii_of_N (n + 32)
       else c.

(** [String.prototype.toLowerCase] *)
Fixpoint toLowerCase (s : string) : string :=
  match s with
  | EmptyString => EmptyString
  | String c s' => String (lower_char c) (toLowerCase s')
  end.

(** [String.prototype.trimStart] *)
Fixpoint trimStart (s : string) : string :=
  match s with
  | EmptyString => EmptyString
  | String c s' => if is_whitespace c then trimStart s' else s
  end.

(** [String.prototype.trimEnd] *)
Fixpoint trimEnd (s : string) : string :=
  match s with
  | EmptyString => EmptyString
  | String c s' =>
      match trimEnd s' with
      | EmptyString => if is_whitespace c then EmptyString
                       else String c EmptyString
      | r => String c r
      end
  end.

(** [String.prototype.trim] *)
Definition trim (s : string) : string := trimEnd (trimStart s).

(** [s.split(sep)] for a separator of one code unit; the result is never
    empty: [''.split('\n')] is [['']]. *)
Fixpoint split (sep : ascii) (s : string) : list string :=
  match s with
  | EmptyString => [EmptyString]
  | String c s' =>
      if Ascii.eqb c sep then EmptyString :: split sep s'
      else match split sep s' with
           | h :: t => String c h :: t
           | [] => [String c EmptyString]
           end
  end.

(** [strip_prefix pat s] is [Some rest] when [s = pat ++ rest]. *)
Fixpoint strip_prefix (pat s : string) : option string :=
  match pat, s with
  | EmptyString, _ => Some s
  | String a pat', String b s' =>
      if Ascii.eqb a b then strip_prefix pat' s' else None
  | String _ _, EmptyString => None
  end.

(** First occurrence of [pat] in [s]: the text before and after it. *)
Fixpoint find_first (pat s : string) : option (string * string) :=
  match strip_prefix pat s with
  | Some rest => Some (EmptyString, rest)
  | None =>
      match s with
      | EmptyString => None
      | String c s' =>
          match find_first pat s' with
          | Some (pre, post) => Some (String c pre, post)
          | None => None
          end
      end
  end.

(** The abstract operation GetSubstitution of ECMAScript for a string
    pattern: there are no capture groups, so [$n] and [$<] stay literal and
    only [$$], [$&], [$`] and [$'] are expanded. *)
Fixpoint GetSubstitution (matched before after template : string) : string :=
  match template with
  | EmptyString => EmptyString
  | String "$" (String "$" r) =>
      String "$" (GetSubstitution matched before after r)
  | String "$" (String "&" r) =>
      matched +:+ GetSubstitution matched before after r
  | String "$" (String "`" r) =>
      before +:+ GetSubstitution matched before after r
  | String "$" (String "'" r) =>
      after +:+ GetSubstitution matched before after r
  | String c r => String c (GetSubstitution matched before after r)
  end.

(** [s.replace(pat, repl)] with both arguments strings: only the first
    occurrence is replaced, and the replacement goes through
    GetSubstitution. *)
Definition replace (s pat repl : string) : string :=
  match find_first pat s with
  | None => s
  | Some (pre, post) => pre +:+ GetSubstitution pat pre post repl +:+ post
  end.

(** ToString of a value that is a string or [undefined], as a template
    literal or an implicit conversion performs it. *)
Definition to_string (v : option string) : string :=
  match v with
  | Some s => s
  | None => "undefined"
  end.

(** ToBoolean of a value that is a string or [undefined]. *)
Definition truthy (v : option string) : bool :=
  match v with
  | Some EmptyString | None => false
  | Some (String _ _) => true
  end.

(** Does the code unit [c] occur in [s]? *)
Fixpoint contains_char (c : ascii) (s : string) : bool :=
  match s with
  | EmptyString => false
  | String a s' => Ascii.eqb a c || contains_char c s'
  end.

(** Is every code unit of [s] white space? *)
Fixpoint all_whitespace (s : string) : bool :=
  match s with
  | EmptyString => true
  | String c s' => is_whitespace c && all_whitespace s'
  end.

(** A string is "headed" when it does not start with white space. *)
Definition headed (s : string) : Prop :=
  match s with
  | EmptyString => True
  | String c _ => is_whitespace c = false
  end.

End JsString.

Import JsString.

(** ** Node's [path] module (POSIX flavour) *)

Module Path.

(** normalizeString: empty segments and [.] are dropped, [..] removes the
    segment before it. *)
Fixpoint normalize (acc segs : list string) : list string :=
  match segs with
  | [] => acc
  | seg :: rest =>
      if String.eqb seg "" || String.eqb seg "." then normalize acc rest
      else if String.eqb seg ".." then normalize (removelast acc) rest
      else normalize (acc ++ [seg]) rest
  end.

Fixpoint join (segs : list string) : string :=
  match segs with
  | [] => ""
  | seg :: rest => "/" +:+ seg +:+ join rest
  end.

(** [path.resolve(p)] in the working directory [cwd] (an absolute path). *)
Definition resolve (cwd p : string) : string :=
  let full := match p with
              | String "/" _ => p
              | _ => cwd +:+ "/" +:+ p
              end in
  match normalize [] (split "/" full) with
  | [] => "/"
  | segs => join segs
  end.

(** [path.basename(p)]: the last non-empty segment. *)
Definition basename (p : string) : string :=
  List.last (List.filter (fun seg => negb (String.eqb seg "")) (split "/" p))
            "".

End Path.

(** ** Data model *)

(** The object pushed by the ['data'] handler of [lerCSV]; a column that the
    row object does not have reads as [undefined]. *)
Record Participant := mkParticipant {
  code : option string;
  name : option string;
  registration : option string;
  email : option string
}.

(** One element of the array built by [gerarCertificados]. *)
Record Certificate := mkCertificate {
  participant : Participant;
  certificate : string
}.

(** The [mailOptions] object handed to [transporter.sendMail]. *)
Record MailOptions := mkMail {
  mail_from : string;
  mail_to : option string;
  mail_subject : string;
  mail_text : string;
  attachment_filename : string;
  attachment_path : string
}.

(** The part of the disk the program writes: [sent_emails.txt] (absent or
    its content) and the [pdfs] directory (path to printed document). *)
Record Disk := mkDisk {
  sent_emails : option string;
  pdfs : gmap string string
}.

(** What the program reads from outside and cannot decide by itself. *)
Record Env := mkEnv {
  cwd : string;
  JSAUTOMAIL_EMAIL : option string;
  JSAUTOMAIL_USERNAME : option string;
  templates : gmap string string;  (* the [templates] directory *)
  engine_ok : nat -> bool;    (* the [i]-th [gerarPDF] call: the engine works *)
  sendMail_ok : nat -> bool;  (* the [i]-th [sendMail] resolves *)
  append_ok : nat -> bool     (* the [i]-th [appendFileSync] returns *)
}.

(** The answer of [fetch(url)] as [lerCSV] consumes it: a rejected fetch, or
    a response with its [ok] flag and the parser's events, the rows of the
    ['data'] events followed by ['end'] ([None]) or ['error'] ([Some msg]). *)
Inductive Response :=
| FetchError (msg : string)
| HttpResponse (ok : bool) (rows : list (gmap string string))
               (failure : option string).

Inductive promise (A : Type) :=
| Resolved (a : A)
| Rejected (msg : string).
Arguments Resolved {A} a.
Arguments Rejected {A} msg.

(** Observable effects, in program order. *)
Inductive event :=
| EvPdf (p : Participant) (pdfPath : string)   (* [page.pdf] wrote a file *)
| EvRenderError (p : Participant)              (* logged by [gerarCertificados] *)
| EvSendMail (m : MailOptions) (ok : bool)     (* one send attempt *)
| EvLogSent (to : option string)                (* the success log line *)
| EvAddSentEmail (line : string) (ok : bool)   (* [appendFileSync] of one line *)
| EvDelay (ms : nat)                           (* [setTimeout] awaited *)
| EvSendError (to : option string)             (* logged by the [catch] *)
| EvNothingToSend                              (* no artifact: the send is skipped *)
| EvUnexpected (msg : string).                 (* logged by the [catch] of [main] *)

(** ** The ledger *)

(** Content of the ledger file, the empty text when it does not exist. *)
Definition ledger_text (f : option string) : string := default "" f.

(** The normal form written to and looked up in the ledger. [addSentEmail]
    and the filter of [lerCSV] lower-case first and trim second. *)
Definition normalize_email (e : string) : string := trim (toLowerCase e).

Definition loadSentEmails (f : option string) : gset string :=
  match f with
  | None => ∅
  | Some data =>
      let emails := List.filter (fun email => negb (String.eqb (trim email) ""))
                                (split LF data) in
      list_to_set (map (fun email => toLowerCase (trim email)) emails)
  end.

(** The text appended by [addSentEmail]. *)
Definition ledger_line (e : string) : string :=
  trim (toLowerCase e) +:+ String LF "".

Definition addSentEmail (e : string) (f : option string) : option string :=
  Some (ledger_text f +:+ ledger_line e).

(** ** The roster *)

Definition COL_CODE : string :=
  "C" +:+ String "243" ("digo de Presen" +:+ String "231" "a").
Definition COL_NAME : string := "Nome Completo".
Definition COL_REGISTRATION : string := "Matr" +:+ String "237" "cula".
Definition COL_EMAIL : string := "Endere" +:+ String "231" "o de e-mail".

(** The ['data'] handler. *)
Definition on_data (row : gmap string string) : Participant :=
  {| code := row !! COL_CODE;
     name := row !! COL_NAME;
     registration := row !! COL_REGISTRATION;
     email := row !! COL_EMAIL |}.

(** [sentEmails.has(p.email.toLowerCase().trim())] *)
Definition already_sent (sentEmails : gset string) (e : string) : bool :=
  bool_decide (trim (toLowerCase e) ∈ sentEmails).

(** The predicate of [results.filter] in the ['end'] handler:
    [p.email && !sentEmails.has(p.email.toLowerCase().trim())]. *)
Definition is_new (sentEmails : gset string) (p : Participant) : bool :=
  match email p with
  | None => false
  | Some e => truthy (Some e) && negb (already_sent sentEmails e)
  end.

Definition lerCSV (sentEmails : gset string) (r : Response)
  : promise (list Participant) :=
  match r with
  | FetchError msg => Rejected msg
  | HttpResponse false _ _ => Rejected "Erro ao consultar a planilha."
  | HttpResponse true rows failure =>
      let results := map on_data rows in
      match failure with
      | Some msg => Rejected msg
      | None => Resolved (List.filter (is_new sentEmails) results)
      end
  end.

(** ** The renderer *)

Definition PLACEHOLDER : string := "{{participant.name}}".

Definition pdf_path (w : Env) (p : Participant) : string :=
  Path.resolve (cwd w)
    ("./pdfs/" +:+ to_string (name p) +:+ " - (" +:+ to_string (email p)
     +:+ ").pdf").

Definition render_html (content : string) (p : Participant) : string :=
  replace content PLACEHOLDER (to_string (name p)).

(** [gerarPDF]: [None] when a step throws (template missing, engine failure),
    otherwise the path of the file written. [i] numbers the calls. *)
Definition gerarPDF (w : Env) (i : nat) (templateName : string)
    (p : Participant) (d : Disk) : option string * Disk :=
  match templates w !! templateName with
  | None => (None, d)
  | Some content =>
      if engine_ok w i then
        let html := render_html content p in
        let pdfPath := pdf_path w p in
        (Some pdfPath,
         {| sent_emails := sent_emails d;
            pdfs := <[pdfPath := html]> (pdfs d) |})
      else (None, d)
  end.

Fixpoint gerarCertificados_loop (w : Env) (i : nat) (participants : list Participant)
    (d : Disk) : list Certificate * Disk * list event :=
  match participants with
  | [] => ([], d, [])
  | p :: rest =>
      match gerarPDF w i "certificate.html" p d with
      | (Some pdfPath, d1) =>
          let '(certificates, d2, t) := gerarCertificados_loop w (S i) rest d1 in
          ({| participant := p; certificate := pdfPath |} :: certificates,
           d2, EvPdf p pdfPath :: t)
      | (None, d1) =>
          let '(certificates, d2, t) := gerarCertificados_loop w (S i) rest d1 in
          (certificates, d2, EvRenderError p :: t)
      end
  end.

Definition gerarCertificados (w : Env) (participants : list Participant)
    (d : Disk) : list Certificate * Disk * list event :=
  match participants with
  | [] => ([], d, [])
  | _ => gerarCertificados_loop w 0 participants d
  end.

(** ** The dispatcher *)

Definition SUBJECT : string :=
  "Certificado de Participa" +:+ String "231" (String "227"
    "o - Webinar: Planejamento de Carreira em TI").

Definition mailOptions (w : Env) (c : Certificate) : MailOptions :=
  let p := participant c in
  {| mail_from := String "034" (to_string (JSAUTOMAIL_USERNAME w))
                  +:+ String "034" (" <" +:+ to_string (JSAUTOMAIL_EMAIL w) +:+ ">");
     mail_to := email p;
     mail_subject := SUBJECT;
     mail_text := "Ol" +:+ String "225" (" " +:+ to_string (name p) +:+ ","
                  +:+ String LF (String LF ("Segue seu certificado de participa"
                  +:+ String "231" (String "227" ("o em anexo." +:+ String LF
                  (String LF ("Abra" +:+ String "231" "o!")))))));
     attachment_filename := Path.basename (certificate c);
     attachment_path := certificate c |}.

(** One iteration of the [for] loop of [enviarCertificadosPorEmail]: the
    [try] block runs [sendMail], the log, [addSentEmail] and the delay, and
    the first step that throws jumps to the [catch]. *)
Definition send_one (w : Env) (i : nat) (c : Certificate) (d : Disk)
  : Disk * list event :=
  let m := mailOptions w c in
  let to := email (participant c) in
  if sendMail_ok w i then
    match to with
    | None => (d, [EvSendMail m true; EvLogSent to; EvSendError to])
    | Some e =>
        if append_ok w i then
          ({| sent_emails := addSentEmail e (sent_emails d); pdfs := pdfs d |},
           [EvSendMail m true; EvLogSent to;
            EvAddSentEmail (ledger_line e) true; EvDelay 1000])
        else
          (d, [EvSendMail m true; EvLogSent to;
               EvAddSentEmail (ledger_line e) false; EvSendError to])
    end
  else (d, [EvSendMail m false; EvSendError to]).

Fixpoint enviar_loop (w : Env) (i : nat) (certificados : list Certificate)
    (d : Disk) : Disk * list event :=
  match certificados with
  | [] => (d, [])
  | c :: rest =>
      let '(d1, t1) := send_one w i c d in
      let '(d2, t2) := enviar_loop w (S i) rest d1 in
      (d2, t1 ++ t2)
  end.

Definition enviarCertificadosPorEmail (w : Env) (certificados : list Certificate)
    (d : Disk) : Disk * list event :=
  match certificados with
  | [] => (d, [EvNothingToSend])
  | _ => enviar_loop w 0 certificados d
  end.

(** ** The pipeline: [main] from [loadSentEmails] on *)

Definition main (w : Env) (r : Response) (d : Disk) : Disk * list event :=
  let sentEmails := loadSentEmails (sent_emails d) in
  match lerCSV sentEmails r with
  | Rejected msg => (d, [EvUnexpected msg])
  | Resolved participants =>
      let '(certificados, d1, t1) := gerarCertificados w participants d in
      let '(d2, t2) := enviarCertificadosPorEmail w certificados d1 in
      (d2, t1 ++ t2)
  end.

(** The mails handed to the transport, and those it accepted. *)
Definition attempts (t : list event) : list MailOptions :=
  omap (fun e => match e with EvSendMail m _ => Some m | _ => None end) t.

Definition sent (t : list event) : list MailOptions :=
  omap (fun e => match e with EvSendMail m true => Some m | _ => None end) t.

(** ** Vocabulary of the statements *)

(** A ledger text in which every line is closed by a line feed, as every
    text written by [addSentEmail] alone is. *)
Fixpoint newline_terminated (data : string) : bool :=
  match data with
  | EmptyString => true
  | String c rest =>
      match rest with
      | EmptyString => Ascii.eqb c LF
      | String _ _ => newline_terminated rest
      end
  end.

Definition ledger_wf (f : option string) : bool :=
  newline_terminated (ledger_text f).

(** An address whose normal form can be read back from the ledger: it is
    not blank and has no line feed inside. *)
Definition clean_email (e : string) : bool :=
  negb (String.eqb (normalize_email e) "")
  && negb (contains_char LF (normalize_email e)).

(** The ledger lines whose append succeeded. *)
Definition recorded (t : list event) : list string :=
  omap (fun e => match e with EvAddSentEmail l true => Some l | _ => None end) t.

(** The elements of [l] whose position, counted from [i], satisfies [ok]. *)
Fixpoint select_by_index {A : Type} (ok : nat -> bool) (i : nat) (l : list A)
  : list A :=
  match l with
  | [] => []
  | x :: rest =>
      if ok i then x :: select_by_index ok (S i) rest
      else select_by_index ok (S i) rest
  end.

(** The [i]-th call of [gerarPDF] returns: the template exists and the
    engine works. *)
Definition render_succeeds (w : Env) (i : nat) : bool :=
  bool_decide (is_Some (templates w !! "certificate.html")) && engine_ok w i.

(** The artifact of a participant whose rendering succeeded. *)
Definition artifact (w : Env) (p : Participant) : Certificate :=
  {| participant := p; certificate := pdf_path w p |}.

(** The participants reported by the [catch] of [gerarCertificados]. *)
Definition render_errors (t : list event) : list Participant :=
  omap (fun e => match e with EvRenderError p => Some p | _ => None end) t.

(** No rendering and no sending failure was reported. *)
Definition no_failure (t : list event) : bool :=
  forallb (fun e => match e with
                    | EvRenderError _ | EvSendError _ => false
                    | _ => true
                    end) t.

(** The participants parsed from a response, before the ledger filter. *)
Definition roster (r : Response) : list Participant :=
  match r with
  | HttpResponse true rows None => map on_data rows
  | _ => []
  end.

(** Every non-empty address of the roster is clean. *)
Definition roster_clean (r : Response) : bool :=
  forallb (fun p => match email p with
                    | Some e => negb (truthy (Some e)) || clean_email e
                    | None => true
                    end) (roster r).

(** ** Sample data used to instantiate the statements *)

Definition sample_row (n e : string) : gmap string string :=
  {[ COL_NAME := n; COL_EMAIL := e ]}.

Definition sample_env : Env :=
  {| cwd := "/srv/jsautomail";
     JSAUTOMAIL_EMAIL := Some "events@example.com";
     JSAUTOMAIL_USERNAME := Some "Events";
     templates := {[ "certificate.html" := "<h1>{{participant.name}}</h1>" ]};
     engine_ok := fun _ => true;
     sendMail_ok := fun _ => true;
     append_ok := fun _ => true |}.

Definition sample_disk : Disk := {| sent_emails := None; pdfs := ∅ |}.

(** A line as [addSentEmail] writes it. *)
Definition is_line (l : string) : Prop := exists e, l = ledger_line e.

(** The text made of the given lines, one after the other. *)
Definition concat_lines (ls : list string) : string :=
  foldr String.append "" ls.

(** The lines for which [addSentEmail] was called, whether or not the
    append succeeded. *)
Definition commits (t : list event) : list string :=
  omap (fun e => match e with EvAddSentEmail l _ => Some l | _ => None end) t.

(** The claim's words: one commit, of the recipient's normalized address,
    for each artifact whose send the transport accepted, and none for the
    others. [i] is the position of the first artifact. *)
Fixpoint expected_commits (w : Env) (i : nat) (certs : list Certificate)
  : list string :=
  match certs with
  | [] => []
  | c :: rest =>
      match email (participant c) with
      | Some e =>
          if sendMail_ok w i
          then ledger_line e :: expected_commits w (S i) rest
          else expected_commits w (S i) rest
      | None => expected_commits w (S i) rest
      end
  end.

(** The lines that reach the ledger: as above, when moreover the append
    succeeded. *)
Fixpoint expected_recorded (w : Env) (i : nat) (certs : list Certificate)
  : list string :=
  match certs with
  | [] => []
  | c :: rest =>
      match email (participant c) with
      | Some e =>
          if sendMail_ok w i && append_ok w i
          then ledger_line e :: expected_recorded w (S i) rest
          else expected_recorded w (S i) rest
      | None => expected_recorded w (S i) rest
      end
  end.

(** The sample environment with a transport that rejects the first mail. *)
Definition sample_env_first_send_fails : Env :=
  {| cwd := cwd sample_env;
     JSAUTOMAIL_EMAIL := JSAUTOMAIL_EMAIL sample_env;
     JSAUTOMAIL_USERNAME := JSAUTOMAIL_USERNAME sample_env;
     templates := templates sample_env;
     engine_ok := fun _ => true;
     sendMail_ok := fun i => negb (Nat.eqb i 0);
     append_ok := fun _ => true |}.

(** The sample environment with an engine that fails on the second
    participant. *)
Definition sample_env_second_render_fails : Env :=
  {| cwd := cwd sample_env;
     JSAUTOMAIL_EMAIL := JSAUTOMAIL_EMAIL sample_env;
     JSAUTOMAIL_USERNAME := JSAUTOMAIL_USERNAME sample_env;
     templates := templates sample_env;
     engine_ok := fun i => negb (Nat.eqb i 1);
     sendMail_ok := fun _ => true;
     append_ok := fun _ => true |}.

Definition sample_roster : Response :=
  HttpResponse true
    [sample_row "Ana Silva" "ana@x.com"; sample_row "Bruno" "bruno@x.com";
     sample_row "Carla" "carla@x.com"] None.

(** A participant named in the spec's example and one whose name holds a
    replacement pattern of [String.prototype.replace]. *)
Definition ana : Participant :=
  {| code := None; name := Some "Ana Silva"; registration := None;
     email := Some "ana@x.com" |}.

Definition cash : Participant :=
  {| code := None; name := Some "Ca$$h Prize"; registration := None;
     email := Some "cash@x.com" |}.

(** ** The header mapping given to the CSV parser *)

Definition QUOTE : ascii := "034"%char.

(** The first alternative of the pattern given to [replace], a quote
    anchored at the start of the text: a quote that starts the text. *)
Definition strip_leading_quote (s : string) : string :=
  match s with
  | EmptyString => EmptyString
  | String c r => if Ascii.eqb c QUOTE then r else s
  end.

(** The second alternative, a quote anchored at the end of the text. *)
Fixpoint strip_trailing_quote (s : string) : string :=
  match s with
  | EmptyString => EmptyString
  | String c r =>
      match r with
      | EmptyString => if Ascii.eqb c QUOTE then EmptyString else s
      | String _ _ => String c (strip_trailing_quote r)
      end
  end.

(** The global [replace] of an edge quote by the empty text: the scan
    removes a quote at position 0 and then, further right, a quote at the
    last position. *)
Definition replace_edge_quotes (s : string) : string :=
  strip_trailing_quote (strip_leading_quote s).

(** The [mapHeaders] option of the parser: the header is trimmed, then its
    edge quotes are removed. *)
Definition mapHeaders (header : string) : string :=
  replace_edge_quotes (trim header).

(** ** The start-up check *)

Module Requisitos.

(** The answer to [fetch(url, { method: "HEAD" })]. *)
Inductive head_result :=
| HeadThrows (msg : string)
| HeadResponse (ok : bool) (status : nat).

(** What [verificarRequisitos] looks at: the environment variables, the two
    directories, whether [mkdirSync] returns, and the network. *)
Record Host := mkHost {
  process_env : gmap string string;
  templates_exists : bool;
  pdfs_exists : bool;
  mkdir_ok : bool;
  fetch_head : string -> head_result
}.

(** The lines it logs that tell one outcome from another. *)
Inductive req_event :=
| ReqMissing (variable : string)
| ReqOk (variable : string)
| ReqCsvMissing
| ReqCsvFound
| ReqTemplatesMissing
| ReqTemplatesFound
| ReqPdfsCreated
| ReqPdfsFound
| ReqHead (url : string)             (* a probe sent *)
| ReqInternetOk
| ReqInternetUnstable
| ReqNoInternet
| ReqSheetOk
| ReqSheetStatus (status : nat)
| ReqSheetError (msg : string)
| ReqFailed
| ReqAllOk.

(** How the function ends: it returns, it calls [process.exit], or an
    exception of [mkdirSync] leaves it. *)
Inductive req_outcome :=
| ReqPassed
| ReqExit (exit_code : nat)
| ReqThrew.

Record req_result := mkResult {
  outcome : req_outcome;
  log : list req_event
}.

Definition envVars : list string :=
  ["JSAUTOMAIL_EMAIL"; "JSAUTOMAIL_PASSWORD"; "JSAUTOMAIL_USERNAME";
   "JSAUTOMAIL_PLANILHA"].

(** The test of the loop: the variable is unset or empty, or its value is
    empty once trimmed. *)
Definition blank (env : gmap string string) (variable : string) : bool :=
  match env !! variable with
  | None => true
  | Some v => negb (truthy (Some v)) || String.eqb (trim v) ""
  end.

(** The [for] loop over the variables, threading [tudoCerto]. *)
Fixpoint check_env (is_blank : string -> bool) (vars : list string)
    (tudoCerto : bool) : bool * list req_event :=
  match vars with
  | [] => (tudoCerto, [])
  | variable :: rest =>
      if is_blank variable then
        let '(b, t) := check_env is_blank rest false in
        (b, ReqMissing variable :: t)
      else
        let '(b, t) := check_env is_blank rest tudoCerto in
        (b, ReqOk variable :: t)
  end.

Definition GOOGLE : string := "https://www.google.com".

Definition planilhaUrl (env : gmap string string) : string :=
  "https://docs.google.com/spreadsheets/d/"
  +:+ to_string (env !! "JSAUTOMAIL_PLANILHA") +:+ "/gviz/tq?tqx=out:csv".

Definition verificarRequisitos (h : Host) : req_result :=
  let '(ok1, t1) := check_env (blank (process_env h)) envVars true in
  let '(ok2, t2) :=
    if templates_exists h then (ok1, [ReqTemplatesFound])
    else (false, [ReqTemplatesMissing]) in
  if negb (pdfs_exists h) && negb (mkdir_ok h) then
    {| outcome := ReqThrew; log := t1 ++ t2 |}
  else
    let t3 := if pdfs_exists h then [ReqPdfsFound] else [ReqPdfsCreated] in
    let '(ok4, t4) :=
      match fetch_head h GOOGLE with
      | HeadResponse true _ => (ok2, [ReqHead GOOGLE; ReqInternetOk])
      | HeadResponse false _ => (ok2, [ReqHead GOOGLE; ReqInternetUnstable])
      | HeadThrows _ => (false, [ReqHead GOOGLE; ReqNoInternet])
      end in
    let url := planilhaUrl (process_env h) in
    let '(ok5, t5) :=
      match fetch_head h url with
      | HeadResponse true _ => (ok4, [ReqHead url; ReqSheetOk])
      | HeadResponse false status => (false, [ReqHead url; ReqSheetStatus status])
      | HeadThrows msg => (false, [ReqHead url; ReqSheetError msg])
      end in
    if ok5 then
      {| outcome := ReqPassed;
         log := t1 ++ t2 ++ t3 ++ t4 ++ t5 ++ [ReqAllOk] |}
    else
      {| outcome := ReqExit 1;
         log := t1 ++ t2 ++ t3 ++ t4 ++ t5 ++ [ReqFailed] |}.

(** The variables reported as missing, and the probes sent. *)
Definition missing_vars (t : list req_event) : list string :=
  omap (fun e => match e with ReqMissing v => Some v | _ => None end) t.

Definition probes (t : list req_event) : list string :=
  omap (fun e => match e with ReqHead url => Some url | _ => None end) t.

Definition sample_host : Host :=
  {| process_env := {[ "JSAUTOMAIL_EMAIL" := "events@example.com";
                       "JSAUTOMAIL_PASSWORD" := "   ";
                       "JSAUTOMAIL_USERNAME" := "Events" ]};
     templates_exists := true;
     pdfs_exists := false;
     mkdir_ok := true;
     fetch_head := fun url =>
       if String.eqb url GOOGLE then HeadResponse false 503
       else HeadResponse false 404 |}.

Definition sample_host_ready : Host :=
  {| process_env := {[ "JSAUTOMAIL_EMAIL" := "events@example.com";
                       "JSAUTOMAIL_PASSWORD" := "secret";
                       "JSAUTOMAIL_USERNAME" := "Events";
                       "JSAUTOMAIL_PLANILHA" := "1aBcD" ]};
     templates_exists := true;
     pdfs_exists := false;
     mkdir_ok := true;
     fetch_head := fun url =>
       if String.eqb url GOOGLE then HeadResponse false 503
       else HeadResponse true 200 |}.

End Requisitos.

(** ** The variant that reads a local [data.csv] and keeps no ledger *)

Module LocalVariant.

Definition COL_USER : string := "Nome de usu" +:+ String "225" "rio".

(** The ['data'] handler: the address is read from another column. *)
Definition on_data (row : gmap string string) : Participant :=
  {| code := row !! COL_CODE;
     name := row !! COL_NAME;
     registration := row !! COL_REGISTRATION;
     email := row !! COL_USER |}.

(** [lerCSV] over the events of the parser fed with [data.csv]: the rows,
    then ['end'] ([None]) or ['error'] ([Some msg]). Nothing is filtered. *)
Definition lerCSV (rows : list (gmap string string)) (failure : option string)
  : promise (list Participant) :=
  let results := map on_data rows in
  match failure with
  | Some msg => Rejected msg
  | None => Resolved results
  end.

(** [gerarCertificados]: the same loop, entered also for an empty list. *)
Definition gerarCertificados (w : Env) (participants : list Participant)
    (d : Disk) : list Certificate * Disk * list event :=
  gerarCertificados_loop w 0 participants d.

(** One iteration of the sending loop: no ledger commit. *)
Definition send_one (w : Env) (i : nat) (c : Certificate) : list event :=
  let m := mailOptions w c in
  let to := email (participant c) in
  if sendMail_ok w i then [EvSendMail m true; EvLogSent to; EvDelay 1000]
  else [EvSendMail m false; EvSendError to].

Fixpoint enviar_loop (w : Env) (i : nat) (certificados : list Certificate)
  : list event :=
  match certificados with
  | [] => []
  | c :: rest => send_one w i c ++ enviar_loop w (S i) rest
  end.

Definition enviarCertificadosPorEmail (w : Env) (certificados : list Certificate)
  : list event :=
  enviar_loop w 0 certificados.

Definition main (w : Env) (rows : list (gmap string string))
    (failure : option string) (d : Disk) : Disk * list event :=
  match lerCSV rows failure with
  | Rejected msg => (d, [EvUnexpected msg])
  | Resolved participants =>
      let '(certificados, d1, t1) := gerarCertificados w participants d in
      (d1, t1 ++ enviarCertificadosPorEmail w certificados)
  end.

(** What its [verificarRequisitos] looks at. *)
Record Host := mkHost {
  process_env : gmap string string;
  data_csv_exists : bool;
  templates_exists : bool;
  pdfs_exists : bool;
  mkdir_ok : bool
}.

Definition envVars : list string :=
  ["JSAUTOMAIL_EMAIL"; "JSAUTOMAIL_PASSWORD"; "JSAUTOMAIL_USERNAME"].

(** [!process.env[variable]] *)
Definition blank (env : gmap string string) (variable : string) : bool :=
  negb (truthy (env !! variable)).

Definition verificarRequisitos (h : Host) : Requisitos.req_result :=
  let '(ok1, t1) := Requisitos.check_env (blank (process_env h)) envVars true in
  let '(ok2, t2) :=
    if data_csv_exists h then (ok1, [Requisitos.ReqCsvFound])
    else (false, [Requisitos.ReqCsvMissing]) in
  let '(ok3, t3) :=
    if templates_exists h then (ok2, [Requisitos.ReqTemplatesFound])
    else (false, [Requisitos.ReqTemplatesMissing]) in
  if negb (pdfs_exists h) && negb (mkdir_ok h) then
    {| Requisitos.outcome := Requisitos.ReqThrew;
       Requisitos.log := t1 ++ t2 ++ t3 |}
  else
    let t4 := if pdfs_exists h then [Requisitos.ReqPdfsFound]
              else [Requisitos.ReqPdfsCreated] in
    if ok3 then
      {| Requisitos.outcome := Requisitos.ReqPassed;
         Requisitos.log := t1 ++ t2 ++ t3 ++ t4 ++ [Requisitos.ReqAllOk] |}
    else
      {| Requisitos.outcome := Requisitos.ReqExit 1;
         Requisitos.log := t1 ++ t2 ++ t3 ++ t4 ++ [Requisitos.ReqFailed] |}.

End LocalVariant.

(** ** The certificates a run writes *)

(** The files written by [page.pdf], each with the participant it was
    printed for, in program order. *)
Definition written (t : list event) : list (Participant * string) :=
  omap (fun e => match e with EvPdf p path => Some (p, path) | _ => None end) t.

(** The document that [gerarPDF] prints for a participant. *)
Definition certificate_html (w : Env) (p : Participant) : string :=
  render_html (default "" (templates w !! "certificate.html")) p.

(** The [pdfs] directory after one more certificate was written. *)
Definition write_certificate (w : Env) (store : gmap string string)
    (p : Participant) : gmap string string :=
  <[pdf_path w p := certificate_html w p]> store.

(** * Facts about the string operations *)

Module JsStringFacts.

Example trim_ex : trim "  Alice@Example.com " = "Alice@Example.com".
Proof. reflexivity. Qed.
Example lower_ex : toLowerCase "  Alice@Example.com " = "  alice@example.com ".
Proof. reflexivity. Qed.
Example split_ex : split LF (String "a" (String LF (String "b" (String LF "")))) = ["a"; "b"; ""].
Proof. reflexivity. Qed.
Example replace_ex : replace "<h1>{{participant.name}}</h1>{{participant.name}}" "{{participant.name}}" "A$$B$&" = "<h1>A$B{{participant.name}}</h1>{{participant.name}}".
Proof. reflexivity. Qed.

Lemma app_cons (x : ascii) (a b : string) :
  String x a +:+ b = String x (a +:+ b).
Proof. reflexivity. Qed.

Lemma app_empty_l (a : string) : "" +:+ a = a.
Proof. reflexivity. Qed.

Lemma app_assoc (a b c : string) : (a +:+ b) +:+ c = a +:+ (b +:+ c).
Proof.
  induction a as [|x a IH]; [reflexivity|].
  rewrite !app_cons. f_equal. exact IH.
Qed.

Lemma app_empty_r (a : string) : a +:+ "" = a.
Proof.
  induction a as [|x a IH]; [reflexivity|].
  rewrite app_cons. f_equal. exact IH.
Qed.

Lemma is_whitespace_lower (c : ascii) :
  is_whitespace (lower_char c) = is_whitespace c.
Proof. destruct c as [[] [] [] [] [] [] [] []]; reflexivity. Qed.

Lemma lower_char_idem (c : ascii) : lower_char (lower_char c) = lower_char c.
Proof. destruct c as [[] [] [] [] [] [] [] []]; reflexivity. Qed.

Lemma toLowerCase_idem (s : string) :
  toLowerCase (toLowerCase s) = toLowerCase s.
Proof.
  induction s as [|c s IH]; simpl; [reflexivity|].
  now rewrite lower_char_idem, IH.
Qed.

Lemma trimStart_lower (s : string) :
  trimStart (toLowerCase s) = toLowerCase (trimStart s).
Proof.
  induction s as [|c s IH]; simpl; [reflexivity|].
  rewrite is_whitespace_lower. destruct (is_whitespace c); [exact IH | reflexivity].
Qed.

Lemma trimEnd_lower (s : string) :
  trimEnd (toLowerCase s) = toLowerCase (trimEnd s).
Proof.
  induction s as [|c s IH]; simpl; [reflexivity|].
  rewrite IH, is_whitespace_lower.
  destruct (trimEnd s); simpl; [destruct (is_whitespace c)|]; reflexivity.
Qed.

(** Lower-casing and trimming commute, so the three places of the program
    that normalise an address agree, whatever order they use. *)
Lemma trim_lower (s : string) : trim (toLowerCase s) = toLowerCase (trim s).
Proof. unfold trim. now rewrite trimStart_lower, trimEnd_lower. Qed.

Lemma trimEnd_idem (s : string) : trimEnd (trimEnd s) = trimEnd s.
Proof.
  induction s as [|c s IH]; simpl; [reflexivity|].
  destruct (trimEnd s) as [|x r] eqn:E.
  - destruct (is_whitespace c) eqn:W; simpl; [reflexivity | now rewrite W].
  - change (trimEnd (String c (String x r))) with
      (match trimEnd (String x r) with
       | EmptyString => if is_whitespace c then EmptyString else String c EmptyString
       | q => String c q
       end).
    now rewrite IH.
Qed.

Lemma trimStart_headed (s : string) : headed (trimStart s).
Proof.
  induction s as [|c s IH]; simpl; [exact I|].
  destruct (is_whitespace c) eqn:W; [exact IH | exact W].
Qed.

Lemma headed_trimStart (s : string) : headed s -> trimStart s = s.
Proof. destruct s as [|c s]; simpl; [reflexivity | now intros ->]. Qed.

Lemma trimEnd_headed (s : string) : headed s -> headed (trimEnd s).
Proof.
  destruct s as [|c s]; simpl; [trivial|]. intros W.
  destruct (trimEnd s); simpl; [now rewrite W | exact W].
Qed.

Lemma trim_idem (s : string) : trim (trim s) = trim s.
Proof.
  unfold trim.
  rewrite (headed_trimStart (trimEnd (trimStart s))).
  - apply trimEnd_idem.
  - apply trimEnd_headed, trimStart_headed.
Qed.

Lemma trim_all_whitespace (s : string) :
  all_whitespace s = true -> trim s = "".
Proof.
  unfold trim. induction s as [|c s IH]; simpl; [reflexivity|].
  intros [W H]%andb_prop. rewrite W. now apply IH.
Qed.

Lemma all_whitespace_lower (s : string) :
  all_whitespace (toLowerCase s) = all_whitespace s.
Proof.
  induction s as [|c s IH]; simpl; [reflexivity|].
  now rewrite is_whitespace_lower, IH.
Qed.

(** ** [split] *)

Lemma split_nonnil (sep : ascii) (s : string) : split sep s <> [].
Proof.
  induction s as [|c s IH]; simpl; [discriminate|].
  destruct (Ascii.eqb c sep); [discriminate|].
  destruct (split sep s); [contradiction | discriminate].
Qed.

Lemma split_app (sep : ascii) (a b : string) :
  split sep (a +:+ String sep b) = split sep a ++ split sep b.
Proof.
  induction a as [|c a IH]; [rewrite app_empty_l | rewrite app_cons]; simpl.
  - now rewrite Ascii.eqb_refl.
  - rewrite IH. destruct (Ascii.eqb c sep); [reflexivity|].
    pose proof (split_nonnil sep a) as N.
    destruct (split sep a); [contradiction | reflexivity].
Qed.

Lemma split_no_sep (sep : ascii) (s : string) :
  contains_char sep s = false -> split sep s = [s].
Proof.
  induction s as [|c s IH]; simpl; [reflexivity|].
  intros [E H]%orb_false_elim. rewrite E, (IH H). reflexivity.
Qed.

End JsStringFacts.

Import JsStringFacts.

(** * Facts about the ledger *)

Module LedgerFacts.

Lemma lower_normalize_email (e : string) :
  toLowerCase (normalize_email e) = normalize_email e.
Proof.
  unfold normalize_email. now rewrite <- trim_lower, toLowerCase_idem.
Qed.

Lemma trim_normalize_email (e : string) :
  trim (normalize_email e) = normalize_email e.
Proof. unfold normalize_email. apply trim_idem. Qed.

Lemma elem_of_loadSentEmails (x data : string) :
  x ∈ loadSentEmails (Some data) <->
  exists l, In l (split LF data) /\ trim l <> "" /\ x = toLowerCase (trim l).
Proof.
  unfold loadSentEmails. rewrite elem_of_list_to_set, list_elem_of_In, in_map_iff.
  split.
  - intros (l & <- & [Hl Hne]%filter_In). exists l. repeat split; [exact Hl|].
    apply negb_true_iff, String.eqb_neq in Hne. exact Hne.
  - intros (l & Hl & Hne & ->). exists l. split; [reflexivity|].
    apply filter_In. split; [exact Hl|].
    now apply negb_true_iff, String.eqb_neq.
Qed.

Lemma newline_terminated_inv (data : string) :
  newline_terminated data = true ->
  data = "" \/ exists body, data = body +:+ String LF "".
Proof.
  induction data as [|c rest IH]; [now left|]. intros H. right.
  destruct rest as [|c' rest'].
  - simpl in H. apply Ascii.eqb_eq in H as ->. now exists "".
  - destruct (IH H) as [E | [body ->]]; [discriminate|].
    now exists (String c body).
Qed.

Lemma newline_terminated_app (data line : string) :
  newline_terminated (data +:+ line +:+ String LF "") = true.
Proof.
  rewrite <- app_assoc. generalize (data +:+ line). clear. intros s.
  induction s as [|c rest IH]; [reflexivity|].
  rewrite app_cons. destruct rest as [|c' rest']; [reflexivity|].
  exact IH.
Qed.

(** Appending text to a well-formed ledger keeps every line it had. *)
Lemma split_ledger_app (data more l : string) :
  newline_terminated data = true -> In l (split LF data) -> l <> "" ->
  In l (split LF (data +:+ more)).
Proof.
  intros [-> | [body ->]]%newline_terminated_inv Hl Hne.
  - destruct Hl as [<- | []]. now contradiction Hne.
  - rewrite app_assoc, app_cons, app_empty_l, split_app.
    rewrite split_app in Hl. apply in_app_iff in Hl as [Hl | [<- | []]].
    + apply in_app_iff. now left.
    + now contradiction Hne.
Qed.

(** The ledger only grows. *)
Lemma loadSentEmails_mono (data more x : string) :
  newline_terminated data = true ->
  x ∈ loadSentEmails (Some data) -> x ∈ loadSentEmails (Some (data +:+ more)).
Proof.
  intros Hwf (l & Hl & Hne & ->)%elem_of_loadSentEmails.
  apply elem_of_loadSentEmails. exists l. repeat split; [|exact Hne].
  apply split_ledger_app; [exact Hwf | exact Hl |].
  intros ->. now apply Hne.
Qed.

(** A clean address appended to a well-formed ledger is read back. *)
Lemma loadSentEmails_appended (data e more : string) :
  newline_terminated data = true -> clean_email e = true ->
  normalize_email e ∈ loadSentEmails (Some (data +:+ ledger_line e +:+ more)).
Proof.
  intros Hwf [Hne Hnl]%andb_prop.
  apply negb_true_iff in Hne, Hnl. apply String.eqb_neq in Hne.
  apply elem_of_loadSentEmails. exists (normalize_email e).
  rewrite trim_normalize_email, lower_normalize_email.
  repeat split; [|exact Hne].
  unfold ledger_line. fold (normalize_email e).
  rewrite (app_assoc (normalize_email e)), app_cons, app_empty_l.
  rewrite <- app_assoc, split_app. apply in_app_iff. left.
  apply newline_terminated_inv in Hwf as [-> | [body ->]].
  - rewrite app_empty_l, (split_no_sep _ _ Hnl). now left.
  - rewrite app_assoc, app_cons, app_empty_l, split_app, (split_no_sep _ _ Hnl).
    apply in_app_iff. right. now left.
Qed.

End LedgerFacts.

Import LedgerFacts.

(** * Facts about the two loops *)

Module LoopFacts.

Lemma gerarPDF_spec (w : Env) (i : nat) (p : Participant) (d : Disk) :
  gerarPDF w i "certificate.html" p d =
  if render_succeeds w i
  then (Some (pdf_path w p),
        {| sent_emails := sent_emails d;
           pdfs := <[pdf_path w p := render_html
                      (default "" (templates w !! "certificate.html")) p]> (pdfs d) |})
  else (None, d).
Proof.
  unfold gerarPDF, render_succeeds.
  destruct (templates w !! "certificate.html") as [content|]; [|reflexivity].
  now destruct (engine_ok w i).
Qed.

(** What the rendering loop returns: the artifacts of the participants
    whose rendering succeeded, in order; the others are reported; the
    ledger is not touched. *)
Lemma gerarCertificados_loop_spec (w : Env) (ps : list Participant) :
  forall (i : nat) (d : Disk),
    (gerarCertificados_loop w i ps d).1.1
      = map (artifact w) (select_by_index (render_succeeds w) i ps)
    /\ render_errors (gerarCertificados_loop w i ps d).2
      = select_by_index (fun k => negb (render_succeeds w k)) i ps
    /\ sent_emails (gerarCertificados_loop w i ps d).1.2 = sent_emails d.
Proof.
  induction ps as [|p ps IH]; intros i d; [now repeat split|].
  simpl. rewrite gerarPDF_spec.
  destruct (render_succeeds w i); simpl.
  - match goal with |- context [gerarCertificados_loop w (S i) ps ?d1] =>
      destruct (IH (S i) d1) as (Hc & He & Hs);
      destruct (gerarCertificados_loop w (S i) ps d1) as [[certs d2] t] end.
    simpl in *. now rewrite Hc, He, Hs.
  - destruct (IH (S i) d) as (Hc & He & Hs).
    destruct (gerarCertificados_loop w (S i) ps d) as [[certs d2] t].
    simpl in *. now rewrite Hc, He, Hs.
Qed.

Lemma gerarCertificados_spec (w : Env) (ps : list Participant) (d : Disk) :
  (gerarCertificados w ps d).1.1
    = map (artifact w) (select_by_index (render_succeeds w) 0 ps)
  /\ render_errors (gerarCertificados w ps d).2
    = select_by_index (fun k => negb (render_succeeds w k)) 0 ps
  /\ sent_emails (gerarCertificados w ps d).1.2 = sent_emails d.
Proof.
  destruct ps as [|p ps]; [now repeat split|].
  apply (gerarCertificados_loop_spec w (p :: ps) 0 d).
Qed.

Lemma select_all {A : Type} (ok : nat -> bool) (l : list A) :
  forall i, select_by_index (fun k => negb (ok k)) i l = [] ->
            select_by_index ok i l = l.
Proof.
  induction l as [|x l IH]; intros i; simpl; [reflexivity|].
  destruct (ok i); simpl; [|discriminate]. intros H. now rewrite IH.
Qed.

Lemma attempts_app (t1 t2 : list event) :
  attempts (t1 ++ t2) = attempts t1 ++ attempts t2.
Proof. unfold attempts. apply omap_app. Qed.

Lemma attempts_send_one (w : Env) (i : nat) (c : Certificate) (d : Disk) :
  attempts (send_one w i c d).2 = [mailOptions w c].
Proof.
  unfold send_one. destruct (sendMail_ok w i); [|reflexivity].
  destruct (email (participant c)); [|reflexivity].
  now destruct (append_ok w i).
Qed.

(** Every artifact is handed to the transport once, in order, whatever the
    outcome of the earlier attempts. *)
Lemma enviar_loop_attempts (w : Env) (certs : list Certificate) :
  forall (i : nat) (d : Disk),
    attempts (enviar_loop w i certs d).2 = map (mailOptions w) certs.
Proof.
  induction certs as [|c certs IH]; intros i d; [reflexivity|].
  simpl. pose proof (attempts_send_one w i c d) as H1.
  destruct (send_one w i c d) as [d1 t1].
  specialize (IH (S i) d1). destruct (enviar_loop w (S i) certs d1) as [d2 t2].
  simpl in *. now rewrite attempts_app, H1, IH.
Qed.

End LoopFacts.

Import LoopFacts.

(** * The roster filter *)

Lemma toLowerCase_empty (s : string) : toLowerCase s = "" -> s = "".
Proof. destruct s; [reflexivity | discriminate]. Qed.

(** The loaded ledger never contains the empty string: blank lines are
    filtered out before the set is built. *)
Lemma loadSentEmails_no_blank (f : option string) : "" ∉ loadSentEmails f.
Proof.
  destruct f as [data|]; [|apply not_elem_of_empty].
  intros (l & _ & Hne & E)%elem_of_loadSentEmails.
  symmetry in E. now apply toLowerCase_empty in E.
Qed.

Lemma is_new_spec (S : gset string) (p : Participant) :
  is_new S p = true <->
  exists e, email p = Some e /\ e <> "" /\ normalize_email e ∉ S.
Proof.
  unfold is_new, already_sent, normalize_email.
  destruct (email p) as [e|]; [|split; [discriminate | now intros (? & ? & _)]].
  rewrite andb_true_iff, negb_true_iff, bool_decide_eq_false.
  split.
  - intros [T N]. exists e. repeat split; [|exact N].
    intros ->. discriminate.
  - intros (e' & [= <-] & Hne & N). split; [|exact N].
    destruct e; [now contradiction Hne | reflexivity].
Qed.

Lemma is_new_empty_ledger (p : Participant) :
  is_new ∅ p = truthy (email p).
Proof.
  unfold is_new, already_sent. destruct (email p) as [e|]; [|reflexivity].
  rewrite bool_decide_eq_false_2 by apply not_elem_of_empty.
  apply andb_true_r.
Qed.

(** C9. Ledger load on absence: when [sent_emails.txt] does not exist,
    [loadSentEmails] returns the empty set instead of failing, and the run
    goes on with it: the roster filter then keeps every participant whose
    address is non-empty. *)
Theorem loadSentEmails_absent :
  loadSentEmails None = ∅
  /\ forall rows : list (gmap string string),
       lerCSV (loadSentEmails None) (HttpResponse true rows None)
       = Resolved (List.filter (fun p => truthy (email p)) (map on_data rows)).
Proof.
  split; [reflexivity|]. intros rows. simpl. f_equal.
  apply filter_ext. intros p. apply is_new_empty_ledger.
Qed.

(** C2, as stated, fails: a participant whose address is the empty string
    has a normal form that is absent from the ledger, and yet the guard
    [p.email &&] of the filter drops it. *)
Lemma dedup_filter_empty_email_counterexample :
  let row : gmap string string := {[ COL_NAME := "Bob"; COL_EMAIL := "" ]} in
  email (on_data row) = Some ""
  /\ (normalize_email "" ∉ loadSentEmails None)
  /\ lerCSV (loadSentEmails None) (HttpResponse true [row] None) = Resolved [].
Proof.
  repeat split; [apply not_elem_of_empty].
Qed.

(** C2, amended. Dedup filter semantics: for every roster and every ledger
    state, the participants retained are exactly those whose address is a
    non-empty string and whose normalized (lower-cased, trimmed) address is
    absent from the loaded ledger set; a ledger that holds
    [alice@example.com] makes the row with address
    ["  Alice@Example.com "] a duplicate. *)
Theorem dedup_filter_semantics (f : option string)
    (rows : list (gmap string string)) :
  exists kept : list Participant,
    lerCSV (loadSentEmails f) (HttpResponse true rows None) = Resolved kept
    /\ (forall p, In p kept <->
          In p (map on_data rows)
          /\ exists e, email p = Some e /\ e <> ""
                       /\ normalize_email e ∉ loadSentEmails f)
    /\ (forall p, "alice@example.com" ∈ loadSentEmails f ->
          email p = Some "  Alice@Example.com " -> ~ In p kept)
    /\ lerCSV (loadSentEmails (Some ("alice@example.com" +:+ String LF "")))
              (HttpResponse true [ {[ COL_EMAIL := "  Alice@Example.com " ]} ] None)
       = Resolved [].
Proof.
  eexists. split; [reflexivity|]. split; [|split].
  - intros p. rewrite filter_In, is_new_spec. reflexivity.
  - intros p Hin Hp [_ (e & He & _ & Hn)%is_new_spec]%filter_In.
    rewrite Hp in He. injection He as <-. apply Hn. exact Hin.
  - vm_compute. reflexivity.
Qed.

(** * From the roster to the transport *)

Lemma gerarCertificados_loop_each (w : Env) (ps : list Participant) (p : Participant) :
  forall (i : nat) (d : Disk),
    In p ps ->
    In (EvRenderError p) (gerarCertificados_loop w i ps d).2
    \/ (In (EvPdf p (pdf_path w p)) (gerarCertificados_loop w i ps d).2
        /\ In (artifact w p) (gerarCertificados_loop w i ps d).1.1).
Proof.
  induction ps as [|q ps IH]; intros i d; [intros []|].
  intros Hin. simpl. rewrite gerarPDF_spec.
  destruct (render_succeeds w i).
  - match goal with |- context [gerarCertificados_loop w (S i) ps ?d1] =>
      specialize (IH (S i) d1);
      destruct (gerarCertificados_loop w (S i) ps d1) as [[certs d2] t] end.
    simpl in *. destruct Hin as [-> | Hin].
    + right. split; now left.
    + destruct (IH Hin) as [H | [H1 H2]]; [left | right; split]; now right.
  - specialize (IH (S i) d).
    destruct (gerarCertificados_loop w (S i) ps d) as [[certs d2] t].
    simpl in *. destruct Hin as [-> | Hin].
    + left. now left.
    + destruct (IH Hin) as [H | [H1 H2]]; [left; now right | right; now split; [right|]].
Qed.

Lemma enviarCertificadosPorEmail_attempts (w : Env) (certs : list Certificate)
    (d : Disk) :
  attempts (enviarCertificadosPorEmail w certs d).2 = map (mailOptions w) certs.
Proof.
  destruct certs as [|c certs]; [reflexivity|].
  apply (enviar_loop_attempts w (c :: certs) 0 d).
Qed.

(** Every retained participant is either reported as a rendering failure or
    rendered and handed to the transport. *)
Lemma main_retained_dispatched (w : Env) (r : Response) (d : Disk)
    (kept : list Participant) (p : Participant) :
  lerCSV (loadSentEmails (sent_emails d)) r = Resolved kept -> In p kept ->
  In (EvRenderError p) (main w r d).2
  \/ (In (EvPdf p (pdf_path w p)) (main w r d).2
      /\ In (mailOptions w (artifact w p)) (attempts (main w r d).2)).
Proof.
  intros Hr Hin. unfold main. rewrite Hr.
  assert (In (EvRenderError p) (gerarCertificados w kept d).2
          \/ (In (EvPdf p (pdf_path w p)) (gerarCertificados w kept d).2
              /\ In (artifact w p) (gerarCertificados w kept d).1.1)) as H.
  { destruct kept as [|q kept]; [destruct Hin|].
    apply (gerarCertificados_loop_each w (q :: kept) p 0 d Hin). }
  destruct (gerarCertificados w kept d) as [[certs d1] t1]. simpl in H.
  pose proof (enviarCertificadosPorEmail_attempts w certs d1) as Ha.
  destruct (enviarCertificadosPorEmail w certs d1) as [d2 t2]. simpl in *.
  destruct H as [H | [H1 H2]].
  - left. apply in_app_iff. now left.
  - right. split; [apply in_app_iff; now left|].
    rewrite attempts_app, Ha. apply in_app_iff. right.
    now apply (in_map (mailOptions w)) in H2.
Qed.

Lemma main_roster_ext (w : Env) (r r' : Response) (d : Disk) :
  lerCSV (loadSentEmails (sent_emails d)) r
  = lerCSV (loadSentEmails (sent_emails d)) r' ->
  main w r d = main w r' d.
Proof. unfold main. now intros ->. Qed.

Lemma lerCSV_rows (S : gset string) (rows1 rows2 : list (gmap string string))
    (row : gmap string string) :
  lerCSV S (HttpResponse true (rows1 ++ row :: rows2) None)
  = Resolved (List.filter (is_new S) (map on_data rows1)
              ++ (if is_new S (on_data row) then [on_data row] else [])
              ++ List.filter (is_new S) (map on_data rows2)).
Proof.
  simpl. rewrite map_app, List.filter_app. simpl.
  now destruct (is_new S (on_data row)).
Qed.

(** C5, as stated, fails: a row without its name column, between two
    complete rows, is not skipped; it comes back as a participant whose
    name is [undefined], next to the other two. *)
Lemma malformed_row_not_skipped_counterexample :
  let a := sample_row "Ana Silva" "ana@x.com" in
  let m : gmap string string := {[ COL_EMAIL := "m@x.com" ]} in
  let c := sample_row "Carla" "carla@x.com" in
  lerCSV (loadSentEmails None) (HttpResponse true [a; m; c] None)
  = Resolved [on_data a; on_data m; on_data c]
  /\ name (on_data m) = None
  /\ lerCSV (loadSentEmails None) (HttpResponse true [a; m; c] None)
     <> Resolved [on_data a; on_data c].
Proof.
  repeat split. vm_compute. discriminate.
Qed.

(** C5, amended. Malformed-row robustness: a malformed row that the parser
    delivers is not skipped and raises no warning; it is parsed like any
    other row, its missing columns read as [undefined], and only the ledger
    filter decides whether it is kept. The participants of the other rows
    are returned around it, so such a row does not abort the fetch; the
    fetch is aborted, with no participant returned, only when the parser
    reports an error. *)
Theorem lerCSV_malformed_row_kept (S : gset string)
    (rows1 rows2 : list (gmap string string)) (row : gmap string string) :
  lerCSV S (HttpResponse true (rows1 ++ row :: rows2) None)
  = Resolved (List.filter (is_new S) (map on_data rows1)
              ++ (if is_new S (on_data row) then [on_data row] else [])
              ++ List.filter (is_new S) (map on_data rows2))
  /\ (forall col, row !! col = None ->
        (col = COL_CODE -> code (on_data row) = None)
        /\ (col = COL_NAME -> name (on_data row) = None)
        /\ (col = COL_REGISTRATION -> registration (on_data row) = None)
        /\ (col = COL_EMAIL -> email (on_data row) = None))
  /\ (forall msg, lerCSV S (HttpResponse true (rows1 ++ row :: rows2) (Some msg))
                  = Rejected msg).
Proof.
  split; [apply lerCSV_rows|]. split; [|reflexivity].
  intros col H. repeat split; intros ->; exact H.
Qed.

(** C6, as stated, fails: the participant parsed from a row that lacks the
    e-mail column has the address [undefined], not the empty string. *)
Lemma missing_email_is_undefined_counterexample :
  let row : gmap string string := {[ COL_NAME := "Bob" ]} in
  row !! COL_EMAIL = None
  /\ email (on_data row) = None
  /\ email (on_data row) <> Some "".
Proof. repeat split. discriminate. Qed.

(** C6, amended. Missing e-mail column: a row that lacks the e-mail column
    is parsed into a participant whose address is [undefined]; that
    participant is not retained, so the run renders and sends exactly what
    it would without the row, and the rows around it are parsed and
    filtered as usual. *)
Theorem missing_email_row_excluded (w : Env) (d : Disk)
    (rows1 rows2 : list (gmap string string)) (row : gmap string string) :
  row !! COL_EMAIL = None ->
  email (on_data row) = None
  /\ lerCSV (loadSentEmails (sent_emails d))
            (HttpResponse true (rows1 ++ row :: rows2) None)
     = Resolved
         (List.filter (is_new (loadSentEmails (sent_emails d))) (map on_data rows1)
          ++ List.filter (is_new (loadSentEmails (sent_emails d))) (map on_data rows2))
  /\ main w (HttpResponse true (rows1 ++ row :: rows2) None) d
     = main w (HttpResponse true (rows1 ++ rows2) None) d.
Proof.
  intros H.
  assert (is_new (loadSentEmails (sent_emails d)) (on_data row) = false) as Hn.
  { unfold is_new. simpl. now rewrite H. }
  assert (lerCSV (loadSentEmails (sent_emails d))
            (HttpResponse true (rows1 ++ row :: rows2) None)
          = lerCSV (loadSentEmails (sent_emails d))
              (HttpResponse true (rows1 ++ rows2) None)) as Hl.
  { rewrite lerCSV_rows, Hn. simpl. now rewrite map_app, List.filter_app. }
  split; [exact H|]. split; [|now apply main_roster_ext].
  rewrite Hl. simpl. now rewrite map_app, List.filter_app.
Qed.

Lemma missing_email_row_excluded_witness :
  email (on_data {[ COL_NAME := "Bob" ]}) = None
  /\ lerCSV (loadSentEmails (sent_emails sample_disk))
            (HttpResponse true
               ([sample_row "Ana Silva" "ana@x.com"] ++ {[ COL_NAME := "Bob" ]}
                :: [sample_row "Carla" "carla@x.com"]) None)
     = Resolved
         (List.filter (is_new (loadSentEmails (sent_emails sample_disk)))
            (map on_data [sample_row "Ana Silva" "ana@x.com"])
          ++ List.filter (is_new (loadSentEmails (sent_emails sample_disk)))
               (map on_data [sample_row "Carla" "carla@x.com"]))
  /\ main sample_env
       (HttpResponse true
          ([sample_row "Ana Silva" "ana@x.com"] ++ {[ COL_NAME := "Bob" ]}
           :: [sample_row "Carla" "carla@x.com"]) None) sample_disk
     = main sample_env
         (HttpResponse true
            ([sample_row "Ana Silva" "ana@x.com"]
             ++ [sample_row "Carla" "carla@x.com"]) None) sample_disk.
Proof.
  apply (missing_email_row_excluded sample_env sample_disk
           [sample_row "Ana Silva" "ana@x.com"]
           [sample_row "Carla" "carla@x.com"] {[ COL_NAME := "Bob" ]}).
  reflexivity.
Defined.

Lemma normalize_all_whitespace (e : string) :
  all_whitespace e = true -> normalize_email e = "".
Proof.
  intros H. unfold normalize_email. apply trim_all_whitespace.
  now rewrite all_whitespace_lower.
Qed.

(** * The dispatcher's trace *)

Module DispatchFacts.

(** Unfolds one iteration of the loop and splits on its outcome. *)
Ltac enviar_step IH w i c certs d :=
  let d1 := fresh "d1" in let t1 := fresh "t1" in
  let d2 := fresh "d2" in let t2 := fresh "t2" in
  let E1 := fresh "E1" in let E2 := fresh "E2" in
  simpl;
  destruct (send_one w i c d) as [d1 t1] eqn:E1;
  specialize (IH (S i) d1);
  destruct (enviar_loop w (S i) certs d1) as [d2 t2] eqn:E2;
  unfold send_one in E1; simpl in IH |- *;
  destruct (sendMail_ok w i);
  [ destruct (email (participant c)) eqn:?;
    [ destruct (append_ok w i) |] |];
  injection E1 as <- <-; simpl.

Lemma enviar_loop_commit_after_send (w : Env) (certs : list Certificate) :
  forall (i : nat) (d : Disk) (k : nat) (l : string) (ok : bool),
    (enviar_loop w i certs d).2 !! k = Some (EvAddSentEmail l ok) ->
    exists j m e,
      k = S (S j)
      /\ (enviar_loop w i certs d).2 !! j = Some (EvSendMail m true)
      /\ (enviar_loop w i certs d).2 !! S j = Some (EvLogSent (Some e))
      /\ mail_to m = Some e /\ l = ledger_line e.
Proof.
  induction certs as [|c certs IH]; intros i d k l ok; [discriminate|].
  enviar_step IH w i c certs d.
  - destruct k as [|[|[|[|k]]]]; simpl; try discriminate.
    + intros [= <- <-]. eexists 0, _, _. repeat split; eassumption || reflexivity.
    + intros (j & m & e & -> & Hj) % IH. exists (S (S (S (S j)))), m, e.
      split; [reflexivity | exact Hj].
  - destruct k as [|[|[|[|k]]]]; simpl; try discriminate.
    + intros [= <- <-]. eexists 0, _, _. repeat split; eassumption || reflexivity.
    + intros (j & m & e & -> & Hj) % IH. exists (S (S (S (S j)))), m, e.
      split; [reflexivity | exact Hj].
  - destruct k as [|[|[|k]]]; simpl; try discriminate.
    intros (j & m & e & -> & Hj) % IH. exists (S (S (S j))), m, e.
    split; [reflexivity | exact Hj].
  - destruct k as [|[|k]]; simpl; try discriminate.
    intros (j & m & e & -> & Hj) % IH. exists (S (S j)), m, e.
    split; [reflexivity | exact Hj].
Qed.

Lemma enviar_loop_send_then_commit (w : Env) (certs : list Certificate) :
  forall (i : nat) (d : Disk) (j : nat) (m : MailOptions) (e : string),
    (enviar_loop w i certs d).2 !! j = Some (EvSendMail m true) ->
    mail_to m = Some e ->
    (enviar_loop w i certs d).2 !! S j = Some (EvLogSent (Some e))
    /\ exists ok,
         (enviar_loop w i certs d).2 !! S (S j)
         = Some (EvAddSentEmail (ledger_line e) ok).
Proof.
  induction certs as [|c certs IH]; intros i d j m e; [discriminate|].
  enviar_step IH w i c certs d.
  - destruct j as [|[|[|[|j]]]]; simpl; try discriminate; [|apply IH].
    intros [= <-]. simpl. intros He.
    assert (s = e) as -> by congruence. eauto.
  - destruct j as [|[|[|[|j]]]]; simpl; try discriminate; [|apply IH].
    intros [= <-]. simpl. intros He.
    assert (s = e) as -> by congruence. eauto.
  - destruct j as [|[|[|j]]]; simpl; try discriminate; [|apply IH].
    intros [= <-]. simpl. congruence.
  - destruct j as [|[|j]]; simpl; try discriminate. apply IH.
Qed.

(** The first event of the loop's trace, if any, is a send attempt. *)
Lemma enviar_loop_head (w : Env) (certs : list Certificate) (i : nat) (d : Disk) :
  (enviar_loop w i certs d).2 !! 0 = None
  \/ exists m ok, (enviar_loop w i certs d).2 !! 0 = Some (EvSendMail m ok).
Proof.
  destruct certs as [|c certs]; [now left | right]. simpl.
  destruct (send_one w i c d) as [d1 t1] eqn:E1.
  destruct (enviar_loop w (S i) certs d1) as [d2 t2].
  unfold send_one in E1.
  destruct (sendMail_ok w i);
    [destruct (email (participant c)); [destruct (append_ok w i)|]|];
    injection E1 as <- <-; simpl; eauto.
Qed.

Lemma enviar_loop_failed_send (w : Env) (certs : list Certificate) :
  forall (i : nat) (d : Disk) (j : nat) (m : MailOptions),
    (enviar_loop w i certs d).2 !! j = Some (EvSendMail m false) ->
    (enviar_loop w i certs d).2 !! S j = Some (EvSendError (mail_to m))
    /\ ((enviar_loop w i certs d).2 !! S (S j) = None
        \/ exists m' ok',
             (enviar_loop w i certs d).2 !! S (S j) = Some (EvSendMail m' ok')).
Proof.
  induction certs as [|c certs IH]; intros i d j m; [discriminate|].
  pose proof (enviar_loop_head w certs (S i)) as Hd.
  enviar_step IH w i c certs d.
  - destruct j as [|[|[|[|j]]]]; simpl; try discriminate. apply IH.
  - destruct j as [|[|[|[|j]]]]; simpl; try discriminate. apply IH.
  - destruct j as [|[|[|j]]]; simpl; try discriminate. apply IH.
  - destruct j as [|[|j]]; simpl; try discriminate; [|apply IH].
    intros [= <-]. split; [reflexivity|].
    match goal with E : enviar_loop _ _ _ ?dd = _ |- _ =>
      specialize (Hd dd); rewrite E in Hd end.
    exact Hd.
Qed.



(** The commits and the ledger: which lines are written, and where. *)
Lemma enviar_loop_ledger (w : Env) (certs : list Certificate) :
  forall (i : nat) (d : Disk),
    commits (enviar_loop w i certs d).2 = expected_commits w i certs
    /\ recorded (enviar_loop w i certs d).2 = expected_recorded w i certs
    /\ ledger_text (sent_emails (enviar_loop w i certs d).1)
       = ledger_text (sent_emails d)
         +:+ concat_lines (recorded (enviar_loop w i certs d).2)
    /\ (recorded (enviar_loop w i certs d).2 = [] ->
        sent_emails (enviar_loop w i certs d).1 = sent_emails d)
    /\ pdfs (enviar_loop w i certs d).1 = pdfs d.
Proof.
  induction certs as [|c certs IH]; intros i d.
  { simpl. rewrite app_empty_r. now repeat split. }
  enviar_step IH w i c certs d; destruct IH as (Hc & Hr & Ht & Hn & Hp).
  - change (commits (EvSendMail (mailOptions w c) true :: EvLogSent (Some s)
                     :: EvAddSentEmail (ledger_line s) true :: EvDelay 1000 :: t2))
      with (ledger_line s :: commits t2).
    change (recorded (EvSendMail (mailOptions w c) true :: EvLogSent (Some s)
                      :: EvAddSentEmail (ledger_line s) true :: EvDelay 1000 :: t2))
      with (ledger_line s :: recorded t2).
    rewrite Hc, Hr. repeat split; [|discriminate|exact Hp].
    rewrite Ht, Hr. simpl. now rewrite app_assoc.
  - change (commits (EvSendMail (mailOptions w c) true :: EvLogSent (Some s)
                     :: EvAddSentEmail (ledger_line s) false
                     :: EvSendError (Some s) :: t2))
      with (ledger_line s :: commits t2).
    change (recorded (EvSendMail (mailOptions w c) true :: EvLogSent (Some s)
                      :: EvAddSentEmail (ledger_line s) false
                      :: EvSendError (Some s) :: t2))
      with (recorded t2).
    rewrite Hc. now repeat split.
  - change (commits (EvSendMail (mailOptions w c) true :: EvLogSent None
                     :: EvSendError None :: t2)) with (commits t2).
    change (recorded (EvSendMail (mailOptions w c) true :: EvLogSent None
                      :: EvSendError None :: t2)) with (recorded t2).
    now repeat split.
  - change (commits (EvSendMail (mailOptions w c) false
                     :: EvSendError (email (participant c)) :: t2))
      with (commits t2).
    change (recorded (EvSendMail (mailOptions w c) false
                      :: EvSendError (email (participant c)) :: t2))
      with (recorded t2).
    destruct (email (participant c)); now repeat split.
Qed.

End DispatchFacts.

Import DispatchFacts.

(** C3. Ledger-commit invariant of [enviarCertificadosPorEmail]: a commit
    is issued only right after the transport accepted the mail of that
    recipient (only the success log line lies between), and its line is the
    recipient's normalized address; every accepted mail is followed by its
    commit; the commits are exactly one per accepted mail and none for a
    rejected one; and the ledger file after the loop is the file before it
    followed by the committed lines whose append succeeded, so it is left
    untouched when there is none. *)
Theorem ledger_commit_invariant (w : Env) (certs : list Certificate) (d : Disk) :
  let t := (enviarCertificadosPorEmail w certs d).2 in
  let d' := (enviarCertificadosPorEmail w certs d).1 in
  (forall k l ok, t !! k = Some (EvAddSentEmail l ok) ->
     exists j m e,
       k = S (S j) /\ t !! j = Some (EvSendMail m true)
       /\ t !! S j = Some (EvLogSent (Some e))
       /\ mail_to m = Some e
       /\ l = normalize_email e +:+ String LF "")
  /\ (forall j m e, t !! j = Some (EvSendMail m true) -> mail_to m = Some e ->
        t !! S j = Some (EvLogSent (Some e))
        /\ exists ok, t !! S (S j) = Some (EvAddSentEmail (ledger_line e) ok))
  /\ (forall j m, t !! j = Some (EvSendMail m false) ->
        t !! S j = Some (EvSendError (mail_to m)))
  /\ commits t = expected_commits w 0 certs
  /\ recorded t = expected_recorded w 0 certs
  /\ ledger_text (sent_emails d')
     = ledger_text (sent_emails d) +:+ concat_lines (recorded t)
  /\ (recorded t = [] -> sent_emails d' = sent_emails d).
Proof.
  destruct certs as [|c certs].
  { simpl. split; [|split; [|split]].
    - intros [|k] l ok H; discriminate H.
    - intros [|j] m e H; discriminate H.
    - intros [|j] m H; discriminate H.
    - repeat split; try reflexivity. symmetry. apply app_empty_r. }
  cbv zeta. change (enviarCertificadosPorEmail w (c :: certs) d)
    with (enviar_loop w 0 (c :: certs) d).
  destruct (enviar_loop_ledger w (c :: certs) 0 d) as (Hc & Hr & Ht & Hn & _).
  repeat split; try assumption.
  - apply enviar_loop_commit_after_send.
  - eapply enviar_loop_send_then_commit; eassumption.
  - eapply enviar_loop_send_then_commit; eassumption.
  - intros j m H. now apply enviar_loop_failed_send in H as [H _].
Qed.



(** * The whole run *)

Module MainFacts.

Lemma main_resolved (w : Env) (r : Response) (d : Disk) (kept : list Participant) :
  lerCSV (loadSentEmails (sent_emails d)) r = Resolved kept ->
  main w r d
  = ((enviarCertificadosPorEmail w (gerarCertificados w kept d).1.1
        (gerarCertificados w kept d).1.2).1,
     (gerarCertificados w kept d).2
     ++ (enviarCertificadosPorEmail w (gerarCertificados w kept d).1.1
           (gerarCertificados w kept d).1.2).2).
Proof.
  intros H. unfold main. rewrite H.
  destruct (gerarCertificados w kept d) as [[certs d1] t1]. simpl.
  now destruct (enviarCertificadosPorEmail w certs d1).
Qed.

Lemma main_rejected (w : Env) (r : Response) (d : Disk) (msg : string) :
  lerCSV (loadSentEmails (sent_emails d)) r = Rejected msg ->
  main w r d = (d, [EvUnexpected msg]).
Proof. intros H. unfold main. now rewrite H. Qed.

(** The rendering loop hands nothing to the transport. *)
Lemma gerarCertificados_loop_attempts (w : Env) (ps : list Participant) :
  forall (i : nat) (d : Disk),
    attempts (gerarCertificados_loop w i ps d).2 = [].
Proof.
  induction ps as [|p ps IH]; intros i d; [reflexivity|].
  simpl. destruct (gerarPDF w i "certificate.html" p d) as [[path|] d1];
    specialize (IH (S i) d1);
    destruct (gerarCertificados_loop w (S i) ps d1) as [[certs d2] t];
    exact IH.
Qed.

Lemma gerarCertificados_attempts (w : Env) (ps : list Participant) (d : Disk) :
  attempts (gerarCertificados w ps d).2 = [].
Proof.
  destruct ps as [|p ps]; [reflexivity|].
  apply (gerarCertificados_loop_attempts w (p :: ps) 0 d).
Qed.

Lemma render_errors_app (t1 t2 : list event) :
  render_errors (t1 ++ t2) = render_errors t1 ++ render_errors t2.
Proof. unfold render_errors. apply omap_app. Qed.

(** The dispatcher reports no rendering failure. *)
Lemma enviar_loop_render_errors (w : Env) (certs : list Certificate) :
  forall (i : nat) (d : Disk), render_errors (enviar_loop w i certs d).2 = [].
Proof.
  induction certs as [|c certs IH]; intros i d; [reflexivity|].
  enviar_step IH w i c certs d; exact IH.
Qed.

Lemma enviarCertificadosPorEmail_render_errors (w : Env)
    (certs : list Certificate) (d : Disk) :
  render_errors (enviarCertificadosPorEmail w certs d).2 = [].
Proof.
  destruct certs as [|c certs]; [reflexivity|].
  apply (enviar_loop_render_errors w (c :: certs) 0 d).
Qed.

Lemma sent_attempts (t : list event) (m : MailOptions) :
  In m (sent t) -> In m (attempts t).
Proof.
  induction t as [|e t IH]; [intros []|].
  destruct e as [| |m' [|]| | | | | |]; simpl; try exact IH.
  - intros [-> | H]; [now left | right; now apply IH].
  - intros H. right. now apply IH.
Qed.

(** What a run reports and attempts, from the participants it retained. *)
Lemma main_trace (w : Env) (r : Response) (d : Disk) (kept : list Participant) :
  lerCSV (loadSentEmails (sent_emails d)) r = Resolved kept ->
  render_errors (main w r d).2
  = select_by_index (fun k => negb (render_succeeds w k)) 0 kept
  /\ attempts (main w r d).2
     = map (fun p => mailOptions w (artifact w p))
           (select_by_index (render_succeeds w) 0 kept).
Proof.
  intros H. rewrite (main_resolved w r d kept H). simpl.
  destruct (gerarCertificados_spec w kept d) as (Hc & He & _).
  rewrite render_errors_app, attempts_app, He, Hc.
  rewrite enviarCertificadosPorEmail_render_errors, gerarCertificados_attempts.
  rewrite enviarCertificadosPorEmail_attempts, map_map, app_nil_r.
  now split.
Qed.

End MainFacts.

Import MainFacts.

(** * Two runs in a row *)

Module RerunFacts.

Lemma loadSentEmails_text (f : option string) :
  loadSentEmails f = loadSentEmails (Some (ledger_text f)).
Proof. now destruct f. Qed.

Lemma expected_recorded_lines (w : Env) (certs : list Certificate) :
  forall i, Forall is_line (expected_recorded w i certs).
Proof.
  induction certs as [|c certs IH]; intros i; simpl; [constructor|].
  destruct (email (participant c)) as [e|]; [|apply IH].
  destruct (sendMail_ok w i && append_ok w i); [|apply IH].
  constructor; [now exists e | apply IH].
Qed.

Lemma concat_lines_app (l1 l2 : list string) :
  concat_lines (l1 ++ l2) = concat_lines l1 +:+ concat_lines l2.
Proof.
  induction l1 as [|x l1 IH]; simpl; [reflexivity|].
  now rewrite IH, app_assoc.
Qed.

Lemma newline_terminated_lines (ls : list string) :
  forall data, newline_terminated data = true -> Forall is_line ls ->
               newline_terminated (data +:+ concat_lines ls) = true.
Proof.
  induction ls as [|l ls IH]; intros data Hd Hl; simpl.
  - now rewrite app_empty_r.
  - inversion Hl as [|? ? [e ->] Hls]; subst.
    rewrite <- app_assoc. apply IH; [|exact Hls].
    unfold ledger_line. apply newline_terminated_app.
Qed.

(** A committed line of a clean address is read back from the ledger. *)
Lemma recorded_line_loaded (f f' : option string) (ls : list string) (e : string) :
  ledger_wf f = true ->
  ledger_text f' = ledger_text f +:+ concat_lines ls ->
  Forall is_line ls -> In (ledger_line e) ls -> clean_email e = true ->
  normalize_email e ∈ loadSentEmails f'.
Proof.
  intros Hwf Ht Hls Hin Hc.
  apply in_split in Hin as (l1 & l2 & ->).
  rewrite loadSentEmails_text, Ht, concat_lines_app. simpl.
  rewrite <- app_assoc.
  apply loadSentEmails_appended; [|exact Hc].
  apply newline_terminated_lines; [exact Hwf|].
  apply Forall_app in Hls. tauto.
Qed.

(** What the ledger held before the run, it still holds after it. *)
Lemma ledger_grows (f f' : option string) (more x : string) :
  ledger_wf f = true -> ledger_text f' = ledger_text f +:+ more ->
  x ∈ loadSentEmails f -> x ∈ loadSentEmails f'.
Proof.
  intros Hwf Ht. rewrite (loadSentEmails_text f), (loadSentEmails_text f'), Ht.
  now apply loadSentEmails_mono.
Qed.

Lemma recorded_app (t1 t2 : list event) :
  recorded (t1 ++ t2) = recorded t1 ++ recorded t2.
Proof. unfold recorded. apply omap_app. Qed.

Lemma gerarCertificados_loop_recorded (w : Env) (ps : list Participant) :
  forall (i : nat) (d : Disk),
    recorded (gerarCertificados_loop w i ps d).2 = [].
Proof.
  induction ps as [|p ps IH]; intros i d; [reflexivity|].
  simpl. destruct (gerarPDF w i "certificate.html" p d) as [[path|] d1];
    specialize (IH (S i) d1);
    destruct (gerarCertificados_loop w (S i) ps d1) as [[certs d2] t];
    exact IH.
Qed.

Lemma gerarCertificados_recorded (w : Env) (ps : list Participant) (d : Disk) :
  recorded (gerarCertificados w ps d).2 = [].
Proof.
  destruct ps as [|p ps]; [reflexivity|].
  apply (gerarCertificados_loop_recorded w (p :: ps) 0 d).
Qed.

Lemma enviarCertificadosPorEmail_ledger (w : Env) (certs : list Certificate)
    (d : Disk) :
  recorded (enviarCertificadosPorEmail w certs d).2 = expected_recorded w 0 certs
  /\ ledger_text (sent_emails (enviarCertificadosPorEmail w certs d).1)
     = ledger_text (sent_emails d)
       +:+ concat_lines (recorded (enviarCertificadosPorEmail w certs d).2).
Proof.
  destruct certs as [|c certs].
  - simpl. split; [reflexivity | symmetry; apply app_empty_r].
  - destruct (enviar_loop_ledger w (c :: certs) 0 d) as (_ & Hr & Ht & _).
    now split.
Qed.

(** The ledger after a run: the ledger before it, followed by the lines
    the run committed. *)
Lemma main_ledger (w : Env) (r : Response) (d : Disk) :
  Forall is_line (recorded (main w r d).2)
  /\ ledger_text (sent_emails (main w r d).1)
     = ledger_text (sent_emails d) +:+ concat_lines (recorded (main w r d).2).
Proof.
  destruct (lerCSV (loadSentEmails (sent_emails d)) r) as [kept|msg] eqn:H.
  - rewrite (main_resolved w r d kept H). simpl.
    destruct (gerarCertificados_spec w kept d) as (_ & _ & Hs).
    destruct (enviarCertificadosPorEmail_ledger w (gerarCertificados w kept d).1.1
                (gerarCertificados w kept d).1.2) as [Hr Ht].
    rewrite recorded_app, gerarCertificados_recorded. simpl.
    split; [rewrite Hr; apply expected_recorded_lines|].
    now rewrite Ht, Hs.
  - rewrite (main_rejected w r d msg H). simpl.
    split; [constructor | symmetry; apply app_empty_r].
Qed.

Lemma no_failure_app (t1 t2 : list event) :
  no_failure (t1 ++ t2) = no_failure t1 && no_failure t2.
Proof. unfold no_failure. apply forallb_app. Qed.

Lemma no_failure_render_errors (t : list event) :
  no_failure t = true -> render_errors t = [].
Proof.
  induction t as [|e t IH]; [reflexivity|].
  destruct e; simpl; try discriminate; exact IH.
Qed.

(** When the dispatcher reports no failure, every artifact it was given
    has its line committed. *)
Lemma enviar_loop_all_recorded (w : Env) (certs : list Certificate) :
  forall (i : nat) (d : Disk),
    no_failure (enviar_loop w i certs d).2 = true ->
    forall c, In c certs ->
      exists e, email (participant c) = Some e
                /\ In (ledger_line e) (recorded (enviar_loop w i certs d).2).
Proof.
  induction certs as [|c certs IH]; intros i d; [intros _ ? []|].
  enviar_step IH w i c certs d; try discriminate.
  intros Hn c' [<- | Hin].
  - eexists. split; [eassumption | now left].
  - destruct (IH Hn c' Hin) as (e & He & Hr). exists e. split; [exact He|].
    now right.
Qed.

Lemma lerCSV_roster (S : gset string) (r : Response) (kept : list Participant) :
  lerCSV S r = Resolved kept -> kept = List.filter (is_new S) (roster r).
Proof.
  destruct r as [msg | [|] rows [msg|]]; simpl; try discriminate.
  now intros [= <-].
Qed.

Lemma filter_none {A : Type} (f : A -> bool) (l : list A) :
  (forall x, In x l -> f x = false) -> List.filter f l = [].
Proof.
  induction l as [|x l IH]; intros H; simpl; [reflexivity|].
  rewrite (H x) by now left. apply IH. intros y Hy. apply H. now right.
Qed.

End RerunFacts.

Import RerunFacts.

(** C1, as stated, fails in two ways. A participant whose mail the
    transport rejected in the first run is not in the ledger, so the second
    run retains it and sends: the program retries what failed. And a
    participant whose address is made of white space is sent a mail in the
    first run, with nothing reported as failed, and again in the second:
    the line committed for it is blank and is dropped when the ledger is
    loaded. *)
Lemma second_run_resends_counterexample :
  let r := HttpResponse true [sample_row "Ana Silva" "ana@x.com"] None in
  let r' := HttpResponse true [sample_row "Bob" "  "] None in
  (sent (main sample_env_first_send_fails r sample_disk).2 = []
   /\ map mail_to
        (sent (main sample_env r
                 (main sample_env_first_send_fails r sample_disk).1).2)
      = [Some "ana@x.com"])
  /\ (no_failure (main sample_env r' sample_disk).2 = true
      /\ map mail_to (sent (main sample_env r' sample_disk).2) = [Some "  "]
      /\ map mail_to
           (sent (main sample_env r' (main sample_env r' sample_disk).1).2)
         = [Some "  "]).
Proof. vm_compute. repeat split. Qed.

(** C1, amended. Idempotence across runs, for a ledger file that is absent
    or ends every line with a line feed and a roster whose non-empty
    addresses are clean (their normal form is not blank and has no line
    feed inside): every participant of the roster whose address was
    committed to the ledger in the first run is excluded by the filter of
    the second run; and when the first run reported no rendering and no
    sending failure, the second run against the unchanged roster retains
    no participant, attempts and sends no mail, and leaves the disk as it
    found it. *)
Theorem second_run_sends_nothing (w1 w2 : Env) (r : Response) (d : Disk) :
  ledger_wf (sent_emails d) = true ->
  roster_clean r = true ->
  let t1 := (main w1 r d).2 in
  let d1 := (main w1 r d).1 in
  (forall p e, In p (roster r) -> email p = Some e ->
     In (ledger_line e) (recorded t1) ->
     is_new (loadSentEmails (sent_emails d1)) p = false)
  /\ (no_failure t1 = true ->
      (forall p, In p (roster r) ->
         is_new (loadSentEmails (sent_emails d1)) p = false)
      /\ attempts (main w2 r d1).2 = []
      /\ sent (main w2 r d1).2 = []
      /\ (main w2 r d1).1 = d1).
Proof.
  intros Hwf Hclean t1 d1.
  destruct (main_ledger w1 r d) as [Hlines Htext]. fold t1 d1 in Hlines, Htext.
  assert (forall p e, In p (roster r) -> email p = Some e ->
            In (ledger_line e) (recorded t1) ->
            is_new (loadSentEmails (sent_emails d1)) p = false) as HA.
  { intros p e Hp He Hin. unfold is_new. rewrite He.
    destruct e as [|x e']; [reflexivity|]. simpl.
    unfold roster_clean in Hclean. rewrite forallb_forall in Hclean.
    specialize (Hclean p Hp). rewrite He in Hclean. simpl in Hclean.
    unfold already_sent. rewrite bool_decide_eq_true_2; [reflexivity|].
    apply (recorded_line_loaded (sent_emails d) (sent_emails d1)
             (recorded t1) (String x e') Hwf Htext Hlines Hin Hclean). }
  split; [exact HA|]. intros Hnf.
  assert (forall p, In p (roster r) ->
            is_new (loadSentEmails (sent_emails d1)) p = false) as HB.
  { intros p Hp.
    destruct (is_new (loadSentEmails (sent_emails d)) p) eqn:Hnew.
    - destruct (lerCSV (loadSentEmails (sent_emails d)) r) as [kept|msg] eqn:Hr;
        [|now destruct r as [? | [|] ? [?|]]].
      pose proof (lerCSV_roster _ _ _ Hr) as Hk.
      assert (In p kept) as Hpk by (rewrite Hk; now apply filter_In).
      unfold t1 in Hnf, HA. rewrite (main_resolved w1 r d kept Hr) in Hnf, HA.
      simpl in Hnf, HA. rewrite no_failure_app in Hnf.
      apply andb_prop in Hnf as [Hn1 Hn2].
      destruct (gerarCertificados_spec w1 kept d) as (Hc & He & _).
      rewrite (no_failure_render_errors _ Hn1) in He. symmetry in He.
      rewrite (select_all _ _ _ He) in Hc.
      assert (In (artifact w1 p) (gerarCertificados w1 kept d).1.1) as Hcp
        by (rewrite Hc; now apply in_map).
      assert (exists e, email p = Some e
                /\ In (ledger_line e)
                     (recorded (enviarCertificadosPorEmail w1
                                  (gerarCertificados w1 kept d).1.1
                                  (gerarCertificados w1 kept d).1.2).2))
        as (e & Hpe & Hrec).
      { destruct ((gerarCertificados w1 kept d).1.1) as [|c0 certs0] eqn:Hcs;
          [destruct Hcp|].
        apply (enviar_loop_all_recorded w1 (c0 :: certs0) 0 _ Hn2
                 (artifact w1 p) Hcp). }
      apply (HA p e Hp Hpe). rewrite recorded_app. apply in_app_iff. now right.
    - unfold is_new in Hnew |- *. destruct (email p) as [e|]; [|reflexivity].
      destruct (truthy (Some e)); [|reflexivity]. simpl in Hnew |- *.
      apply negb_false_iff in Hnew. apply negb_false_iff.
      unfold already_sent in *. apply bool_decide_eq_true in Hnew.
      apply bool_decide_eq_true.
      now apply (ledger_grows (sent_emails d) (sent_emails d1) _ _ Hwf Htext). }
  split; [exact HB|].
  destruct (lerCSV (loadSentEmails (sent_emails d1)) r) as [kept2|msg] eqn:Hr2.
  - pose proof (lerCSV_roster _ _ _ Hr2) as Hk2.
    rewrite (filter_none _ _ HB) in Hk2. subst kept2.
    unfold main. rewrite Hr2. now repeat split.
  - rewrite (main_rejected w2 r d1 msg Hr2). now repeat split.
Qed.

(** * The renderer *)

Module RenderFacts.

Lemma strip_prefix_spec (pat : string) :
  forall s rest, strip_prefix pat s = Some rest -> s = pat +:+ rest.
Proof.
  induction pat as [|a pat IH]; intros s rest; simpl.
  - now intros [= ->].
  - destruct s as [|b s]; [discriminate|].
    destruct (Ascii.eqb a b) eqn:E; [|discriminate].
    apply Ascii.eqb_eq in E as ->. intros H. rewrite app_cons.
    now rewrite (IH _ _ H).
Qed.

(** [find_first] splits the string around an occurrence of the pattern. *)
Lemma find_first_spec (pat : string) :
  forall s pre post,
    find_first pat s = Some (pre, post) -> s = pre +:+ pat +:+ post.
Proof.
  induction s as [|c s IH]; intros pre post; simpl.
  - destruct (strip_prefix pat "") as [rest|] eqn:E; [|discriminate].
    intros [= <- <-]. rewrite app_empty_l. now apply strip_prefix_spec.
  - destruct (strip_prefix pat (String c s)) as [rest|] eqn:E.
    + intros [= <- <-]. rewrite app_empty_l. now apply strip_prefix_spec.
    + destruct (find_first pat s) as [[pre' post']|]; [|discriminate].
      intros [= <- <-]. rewrite app_cons. f_equal. now apply IH.
Qed.

(** A replacement text without [$] is inserted as it is. *)
Lemma GetSubstitution_plain (matched before after template : string) :
  contains_char "$" template = false ->
  GetSubstitution matched before after template = template.
Proof.
  induction template as [|c r IH]; [reflexivity|].
  intros [Hc Hr]%orb_false_elim. specialize (IH Hr).
  destruct c as [[] [] [] [] [] [] [] []]; try discriminate Hc;
    simpl; now rewrite IH.
Qed.

Lemma replace_plain (s pat repl pre post : string) :
  contains_char "$" repl = false ->
  find_first pat s = Some (pre, post) ->
  s = pre +:+ pat +:+ post /\ replace s pat repl = pre +:+ repl +:+ post.
Proof.
  intros Hd Hf. split; [now apply find_first_spec|].
  unfold replace. now rewrite Hf, GetSubstitution_plain.
Qed.

Lemma replace_absent (s pat repl : string) :
  find_first pat s = None -> replace s pat repl = s.
Proof. intros H. unfold replace. now rewrite H. Qed.

(** For a name without [$], the first placeholder of the template, and only
    that one, is replaced by the name as it is. *)
Lemma render_html_plain_name (content pre post n : string) (p : Participant) :
  name p = Some n -> contains_char "$" n = false ->
  find_first PLACEHOLDER content = Some (pre, post) ->
  content = pre +:+ PLACEHOLDER +:+ post
  /\ render_html content p = pre +:+ n +:+ post.
Proof.
  intros Hn Hd Hf. unfold render_html. rewrite Hn. simpl.
  now apply replace_plain.
Qed.

(** The spec's example: the placeholder becomes the name, a second
    placeholder and one in another letter case are left alone, and the file
    is named after the name and the address. *)
Lemma render_ana_silva :
  render_html "<h1>{{participant.name}}</h1><p>{{participant.name}}</p>" ana
  = "<h1>Ana Silva</h1><p>{{participant.name}}</p>"
  /\ render_html "<h1>{{Participant.Name}}</h1>" ana
     = "<h1>{{Participant.Name}}</h1>"
  /\ pdf_path sample_env ana = "/srv/jsautomail/pdfs/Ana Silva - (ana@x.com).pdf"
  /\ Path.basename (pdf_path sample_env ana) = "Ana Silva - (ana@x.com).pdf"
  /\ attachment_filename (mailOptions sample_env (artifact sample_env ana))
     = "Ana Silva - (ana@x.com).pdf".
Proof. repeat split. Qed.

(** The path written depends on the name and the address only, so a second
    rendering of the same participant replaces the file of the first. *)
Lemma gerarPDF_overwrites (w : Env) (i j : nat) (p : Participant) (d : Disk) :
  render_succeeds w i = true -> render_succeeds w j = true ->
  (gerarPDF w j "certificate.html" p (gerarPDF w i "certificate.html" p d).2)
  = (gerarPDF w i "certificate.html" p d).
Proof.
  intros Hi Hj. rewrite !gerarPDF_spec, Hi, Hj. simpl.
  now rewrite insert_insert_eq.
Qed.

End RenderFacts.

(** C8 at the failing input: for the participant named [Ca$$h Prize] the
    document that is printed reads [Ca$h Prize]; the name is not inserted
    as it is, because [replace] expands [$$] in its replacement text. *)
Theorem render_dollar_name_not_verbatim :
  render_html "<h1>{{participant.name}}</h1>" cash = "<h1>Ca$h Prize</h1>"
  /\ render_html "<h1>{{participant.name}}</h1>" cash
     <> "<h1>Ca$$h Prize</h1>"
  /\ pdfs (gerarPDF sample_env 0 "certificate.html" cash sample_disk).2
       !! "/srv/jsautomail/pdfs/Ca$$h Prize - (cash@x.com).pdf"
     = Some "<h1>Ca$h Prize</h1>".
Proof. repeat split. discriminate. Qed.

(** The second run after a first run without failure, on sample data. *)
Lemma second_run_sends_nothing_witness :
  ledger_wf (sent_emails sample_disk) = true
  /\ roster_clean sample_roster = true
  /\ no_failure (main sample_env sample_roster sample_disk).2 = true
  /\ length (sent (main sample_env sample_roster sample_disk).2) = 3
  /\ attempts (main sample_env sample_roster
                 (main sample_env sample_roster sample_disk).1).2 = [].
Proof.
  do 4 (split; [reflexivity|]).
  destruct (second_run_sends_nothing sample_env sample_env sample_roster
              sample_disk eq_refl eq_refl) as [_ HB].
  apply HB. reflexivity.
Defined.

(** Every mail a run hands to the transport has a non-empty recipient: the
    filter of [lerCSV] lets no other participant through. *)
Lemma main_attempts_have_recipient (w : Env) (r : Response) (d : Disk)
    (m : MailOptions) :
  In m (attempts (main w r d).2) ->
  exists e, mail_to m = Some e /\ e <> "".
Proof.
  destruct (lerCSV (loadSentEmails (sent_emails d)) r) as [kept|msg] eqn:H.
  - destruct (main_trace w r d kept H) as [_ ->].
    intros (p & <- & Hp)%in_map_iff.
    assert (In p kept) as Hk.
    { clear -Hp. revert Hp. generalize 0.
      induction kept as [|q kept IH]; intros i; simpl; [intros []|].
      destruct (render_succeeds w i); [intros [-> | Hp]|intros Hp];
        [now left | right; eauto | right; eauto]. }
    rewrite (lerCSV_roster _ _ _ H) in Hk.
    apply filter_In in Hk as [_ (e & He & Hne & _)%is_new_spec].
    now exists e.
  - rewrite (main_rejected w r d msg H). intros [].
Qed.

(** * Further properties of the ledger *)

Module LedgerAlgebra.

Lemma loadSentEmails_empty_text : loadSentEmails (Some "") = ∅.
Proof. reflexivity. Qed.

(** Loading a text that follows a well-formed one: the two parts are read
    independently. *)
Lemma load_app (data more : string) :
  newline_terminated data = true ->
  loadSentEmails (Some (data +:+ more))
  = loadSentEmails (Some data) ∪ loadSentEmails (Some more).
Proof.
  intros [-> | [body ->]]%newline_terminated_inv.
  - rewrite app_empty_l, loadSentEmails_empty_text. now rewrite (left_id_L ∅ (∪)).
  - apply set_eq. intros x.
    rewrite elem_of_union, !elem_of_loadSentEmails.
    rewrite app_assoc, app_cons, app_empty_l, !split_app.
    split.
    + intros (l & [Hl | Hl]%in_app_iff & Hne & ->).
      * left. exists l. repeat split; [|exact Hne]. apply in_app_iff. now left.
      * right. now exists l.
    + intros [(l & [Hl | [<- | []]]%in_app_iff & Hne & ->)
             | (l & Hl & Hne & ->)].
      * exists l. repeat split; [|exact Hne]. apply in_app_iff. now left.
      * now contradiction Hne.
      * exists l. repeat split; [|exact Hne]. apply in_app_iff. now right.
Qed.

Lemma ledger_line_wf (e : string) : newline_terminated (ledger_line e) = true.
Proof.
  unfold ledger_line.
  apply (newline_terminated_app "" (trim (toLowerCase e))).
Qed.

(** The set read from the single line of a clean address. *)
Lemma load_line_clean (e : string) :
  clean_email e = true ->
  loadSentEmails (Some (ledger_line e)) = {[ normalize_email e ]}.
Proof.
  intros [Hne Hnl]%andb_prop.
  apply negb_true_iff in Hne, Hnl. apply String.eqb_neq in Hne.
  apply set_eq. intros x. rewrite elem_of_singleton, elem_of_loadSentEmails.
  unfold ledger_line. fold (normalize_email e).
  rewrite split_app, (split_no_sep _ _ Hnl). simpl.
  split.
  - intros (l & [<- | [<- | []]] & Hl & ->).
    + now rewrite trim_normalize_email, lower_normalize_email.
    + now contradiction Hl.
  - intros ->. exists (normalize_email e).
    rewrite trim_normalize_email, lower_normalize_email.
    repeat split; [now left | exact Hne].
Qed.


Lemma load_addSentEmail (e : string) (f : option string) :
  ledger_wf f = true ->
  loadSentEmails (addSentEmail e f)
  = loadSentEmails f ∪ loadSentEmails (Some (ledger_line e)).
Proof.
  intros Hwf. unfold addSentEmail.
  rewrite (load_app _ _ Hwf). now rewrite <- loadSentEmails_text.
Qed.

Lemma addSentEmail_wf (e : string) (f : option string) :
  ledger_wf (addSentEmail e f) = true.
Proof.
  unfold ledger_wf, addSentEmail, ledger_line. simpl.
  apply newline_terminated_app.
Qed.

End LedgerAlgebra.

Import LedgerAlgebra.

(** X1. Reading a ledger text that continues a well-formed one gives the
    union of what each part gives: what was appended never changes what
    the earlier lines mean. *)
Theorem loadSentEmails_concat (data more : string) :
  newline_terminated data = true ->
  loadSentEmails (Some (data +:+ more))
  = loadSentEmails (Some data) ∪ loadSentEmails (Some more).
Proof. apply load_app. Qed.

Lemma loadSentEmails_concat_witness :
  loadSentEmails (Some (("a@x.com" +:+ String LF "") +:+ " B@x.com "))
  = loadSentEmails (Some ("a@x.com" +:+ String LF ""))
    ∪ loadSentEmails (Some " B@x.com ").
Proof.
  apply (loadSentEmails_concat ("a@x.com" +:+ String LF "") " B@x.com ").
  reflexivity.
Defined.

(** X2. Record then load: after [addSentEmail e] on a well-formed ledger,
    [loadSentEmails] returns what it returned before plus the normal form
    of [e], for every clean address [e]; in particular the address is then
    found by the filter's lookup, in any letter case and padding. *)
Theorem record_then_load (e : string) (f : option string) :
  ledger_wf f = true -> clean_email e = true ->
  loadSentEmails (addSentEmail e f)
  = loadSentEmails f ∪ {[ normalize_email e ]}
  /\ (forall e', normalize_email e' = normalize_email e ->
        already_sent (loadSentEmails (addSentEmail e f)) e' = true).
Proof.
  intros Hwf Hc.
  assert (loadSentEmails (addSentEmail e f)
          = loadSentEmails f ∪ {[ normalize_email e ]}) as H.
  { now rewrite (load_addSentEmail e f Hwf), (load_line_clean e Hc). }
  split; [exact H|]. intros e' He'. unfold already_sent.
  apply bool_decide_eq_true. fold (normalize_email e'). rewrite He', H.
  apply elem_of_union. right. now apply elem_of_singleton.
Qed.

Lemma record_then_load_witness :
  loadSentEmails (addSentEmail " Ana@X.com" None)
  = loadSentEmails None ∪ {[ normalize_email " Ana@X.com" ]}
  /\ (forall e', normalize_email e' = normalize_email " Ana@X.com" ->
        already_sent (loadSentEmails (addSentEmail " Ana@X.com" None)) e' = true).
Proof.
  apply (record_then_load " Ana@X.com" None); reflexivity.
Defined.

(** X3. The ledger is read as a set: on a well-formed ledger, recording an
    address a second time changes nothing in what is loaded, and the order
    in which two addresses are recorded does not matter. This holds for
    every address, clean or not. *)
Theorem record_is_set_like (e1 e2 : string) (f : option string) :
  ledger_wf f = true ->
  loadSentEmails (addSentEmail e1 (addSentEmail e1 f))
  = loadSentEmails (addSentEmail e1 f)
  /\ loadSentEmails (addSentEmail e1 (addSentEmail e2 f))
     = loadSentEmails (addSentEmail e2 (addSentEmail e1 f)).
Proof.
  intros Hwf.
  rewrite !(load_addSentEmail _ (addSentEmail _ f)) by apply addSentEmail_wf.
  rewrite !(load_addSentEmail _ f Hwf).
  split.
  - now rewrite <- (assoc_L (∪)), (idemp_L (∪)).
  - rewrite <- !(assoc_L (∪)). f_equal. apply (comm_L (∪)).
Qed.

Lemma record_is_set_like_witness :
  loadSentEmails (addSentEmail "a@x.com" (addSentEmail "a@x.com" None))
  = loadSentEmails (addSentEmail "a@x.com" None)
  /\ loadSentEmails (addSentEmail "a@x.com" (addSentEmail "B@x.com" None))
     = loadSentEmails (addSentEmail "B@x.com" (addSentEmail "a@x.com" None)).
Proof.
  apply (record_is_set_like "a@x.com" "B@x.com" None). reflexivity.
Defined.

Module LedgerEntries.

Lemma lower_char_is_LF (c : ascii) :
  Ascii.eqb (lower_char c) LF = Ascii.eqb c LF.
Proof. destruct c as [[] [] [] [] [] [] [] []]; reflexivity. Qed.

Lemma contains_LF_lower (s : string) :
  contains_char LF (toLowerCase s) = contains_char LF s.
Proof.
  induction s as [|c s IH]; simpl; [reflexivity|].
  now rewrite lower_char_is_LF, IH.
Qed.

Lemma contains_trimStart (c : ascii) (s : string) :
  contains_char c s = false -> contains_char c (trimStart s) = false.
Proof.
  induction s as [|a s IH]; simpl; [trivial|].
  intros [Ha Hs]%orb_false_elim.
  destruct (is_whitespace a); [now apply IH|]. simpl. now rewrite Ha, Hs.
Qed.

Lemma contains_trimEnd (c : ascii) (s : string) :
  contains_char c s = false -> contains_char c (trimEnd s) = false.
Proof.
  induction s as [|a s IH]; simpl; [trivial|].
  intros [Ha Hs]%orb_false_elim. specialize (IH Hs).
  destruct (trimEnd s) as [|x r].
  - destruct (is_whitespace a); simpl; [reflexivity | now rewrite Ha].
  - change (contains_char c (String a (String x r)))
      with (Ascii.eqb a c || contains_char c (String x r)).
    now rewrite Ha, IH.
Qed.

(** The pieces returned by [split] do not contain the separator. *)
Lemma split_pieces (sep : ascii) (s : string) :
  forall l, In l (split sep s) -> contains_char sep l = false.
Proof.
  induction s as [|c s IH]; simpl.
  - intros l [<- | []]. reflexivity.
  - destruct (Ascii.eqb c sep) eqn:E.
    + intros l [<- | Hl]; [reflexivity | now apply IH].
    + pose proof (split_nonnil sep s) as N.
      destruct (split sep s) as [|h t]; [contradiction|].
      intros l [<- | Hl].
      * simpl. rewrite E. apply IH. now left.
      * apply IH. now right.
Qed.

End LedgerEntries.

Import LedgerEntries.

(** X4. Whatever the ledger file holds, every element of the set returned
    by [loadSentEmails] is a normal form: it is not empty, has no white
    space around it, no upper-case letter and no line feed. *)
Theorem loaded_entries_are_normal (f : option string) (x : string) :
  x ∈ loadSentEmails f ->
  x <> "" /\ trim x = x /\ toLowerCase x = x /\ contains_char LF x = false.
Proof.
  destruct f as [data|]; [|intros H; now apply not_elem_of_empty in H].
  intros (l & Hl & Hne & ->)%elem_of_loadSentEmails.
  repeat split.
  - intros E. now apply toLowerCase_empty in E.
  - now rewrite trim_lower, trim_idem.
  - apply toLowerCase_idem.
  - rewrite contains_LF_lower. unfold trim.
    apply contains_trimEnd, contains_trimStart.
    now apply (split_pieces LF data).
Qed.

Lemma loaded_entries_are_normal_witness :
  "bob@x.com" <> ""
  /\ trim "bob@x.com" = "bob@x.com"
  /\ toLowerCase "bob@x.com" = "bob@x.com"
  /\ contains_char LF "bob@x.com" = false.
Proof.
  apply (loaded_entries_are_normal
           (Some ("  Bob@X.com" +:+ String "013" (String LF "")))).
  vm_compute. reflexivity.
Defined.

(** X5. The duplicate test against any ledger file, hand-edited or not: an
    address is found in the loaded set exactly when some non-blank line of
    the file has the same normal form, whatever the letter case and the
    white space around either of them. *)
Theorem already_sent_iff_line (data e : string) :
  already_sent (loadSentEmails (Some data)) e = true <->
  exists l, In l (split LF data) /\ normalize_email l <> ""
            /\ normalize_email l = normalize_email e.
Proof.
  unfold already_sent. rewrite bool_decide_eq_true, elem_of_loadSentEmails.
  fold (normalize_email e). unfold normalize_email.
  split.
  - intros (l & Hl & Hne & E). exists l. rewrite trim_lower.
    repeat split; [exact Hl | | now symmetry].
    intros H. now apply toLowerCase_empty in H.
  - intros (l & Hl & Hne & E). exists l. rewrite trim_lower in Hne, E.
    repeat split; [exact Hl | | now symmetry].
    intros H. apply Hne. now rewrite H.
Qed.



(** * Further properties of a run *)

Module RunFacts.

Lemma select_by_index_In {A : Type} (ok : nat -> bool) (l : list A) (x : A) :
  forall i, In x (select_by_index ok i l) -> In x l.
Proof.
  induction l as [|y l IH]; intros i; simpl; [trivial|].
  destruct (ok i); [intros [-> | H]|intros H]; eauto.
Qed.

(** The mails of a run are those of roster participants that the filter
    let through. *)
Lemma main_attempt_origin (w : Env) (r : Response) (d : Disk) (m : MailOptions) :
  In m (attempts (main w r d).2) ->
  exists p, In p (roster r)
            /\ is_new (loadSentEmails (sent_emails d)) p = true
            /\ m = mailOptions w (artifact w p).
Proof.
  destruct (lerCSV (loadSentEmails (sent_emails d)) r) as [kept|msg] eqn:H.
  - destruct (main_trace w r d kept H) as [_ ->].
    intros (p & <- & Hp%select_by_index_In)%in_map_iff.
    rewrite (lerCSV_roster _ _ _ H) in Hp. apply filter_In in Hp as [Hp Hn].
    now exists p.
  - rewrite (main_rejected w r d msg H). intros [].
Qed.

Lemma sent_app (t1 t2 : list event) : sent (t1 ++ t2) = sent t1 ++ sent t2.
Proof. unfold sent. apply omap_app. Qed.

(** Every committed line is the line of a mail the transport accepted. *)
Lemma enviar_loop_recorded_sent (w : Env) (certs : list Certificate) (l : string) :
  forall (i : nat) (d : Disk),
    In l (recorded (enviar_loop w i certs d).2) ->
    exists m e, In m (sent (enviar_loop w i certs d).2)
                /\ mail_to m = Some e /\ l = ledger_line e.
Proof.
  induction certs as [|c certs IH]; intros i d; [intros []|].
  enviar_step IH w i c certs d.
  - change (In l (ledger_line s :: recorded t2) ->
            exists m e, In m (mailOptions w c :: sent t2)
                        /\ mail_to m = Some e /\ l = ledger_line e).
    intros [<- | Hl].
    + exists (mailOptions w c), s. repeat split; [now left | assumption].
    + destruct (IH Hl) as (m & e & Hm & He & ->). exists m, e.
      repeat split; [now right | exact He].
  - change (In l (recorded t2) ->
            exists m e, In m (mailOptions w c :: sent t2)
                        /\ mail_to m = Some e /\ l = ledger_line e).
    intros Hl. destruct (IH Hl) as (m & e & Hm & He & ->). exists m, e.
    repeat split; [now right | exact He].
  - change (In l (recorded t2) ->
            exists m e, In m (mailOptions w c :: sent t2)
                        /\ mail_to m = Some e /\ l = ledger_line e).
    intros Hl. destruct (IH Hl) as (m & e & Hm & He & ->). exists m, e.
    repeat split; [now right | exact He].
  - exact IH.
Qed.

Lemma main_recorded_sent (w : Env) (r : Response) (d : Disk) (l : string) :
  In l (recorded (main w r d).2) ->
  exists m e, In m (sent (main w r d).2)
              /\ mail_to m = Some e /\ l = ledger_line e.
Proof.
  destruct (lerCSV (loadSentEmails (sent_emails d)) r) as [kept|msg] eqn:H.
  - rewrite (main_resolved w r d kept H). simpl.
    rewrite recorded_app, gerarCertificados_recorded, sent_app. simpl.
    destruct ((gerarCertificados w kept d).1.1) as [|c certs]; [intros []|].
    intros Hl.
    destruct (enviar_loop_recorded_sent w (c :: certs) l 0 _ Hl)
      as (m & e & Hm & He & ->).
    exists m, e. repeat split; [|exact He]. apply in_app_iff. now right.
  - rewrite (main_rejected w r d msg H). intros [].
Qed.

(** An element read from a text made of lines comes from one of them. *)
Lemma load_concat_lines (ls : list string) (x : string) :
  Forall is_line ls ->
  x ∈ loadSentEmails (Some (concat_lines ls)) ->
  exists l, In l ls /\ x ∈ loadSentEmails (Some l).
Proof.
  induction ls as [|l ls IH]; intros Hls.
  - intros H. now apply not_elem_of_empty in H.
  - inversion Hls as [|? ? [e ->] Hrest]; subst.
    change (concat_lines (ledger_line e :: ls))
      with (ledger_line e +:+ concat_lines ls).
    rewrite (load_app _ _ (ledger_line_wf e)).
    intros [H | H]%elem_of_union.
    + exists (ledger_line e). split; [now left | exact H].
    + destruct (IH Hrest H) as (l & Hl & Hx). exists l. split; [now right | exact Hx].
Qed.

End RunFacts.

Import RunFacts.

(** X7. A run keeps the ledger well formed and only adds to it: started on
    a ledger that is absent or ends every line with a line feed, [main]
    leaves a ledger of that kind whose text is the old text followed by
    the lines it committed, so every address the ledger held is still
    loaded from it. *)
Theorem run_extends_ledger (w : Env) (r : Response) (d : Disk) :
  ledger_wf (sent_emails d) = true ->
  ledger_wf (sent_emails (main w r d).1) = true
  /\ ledger_text (sent_emails (main w r d).1)
     = ledger_text (sent_emails d) +:+ concat_lines (recorded (main w r d).2)
  /\ loadSentEmails (sent_emails d) ⊆ loadSentEmails (sent_emails (main w r d).1).
Proof.
  intros Hwf. destruct (main_ledger w r d) as [Hl Ht].
  split; [|split; [exact Ht|]].
  - unfold ledger_wf. rewrite Ht. now apply newline_terminated_lines.
  - intros x Hx. exact (ledger_grows _ _ _ x Hwf Ht Hx).
Qed.

Lemma run_extends_ledger_witness :
  ledger_wf (sent_emails (main sample_env sample_roster sample_disk).1) = true
  /\ ledger_text (sent_emails (main sample_env sample_roster sample_disk).1)
     = ledger_text (sent_emails sample_disk)
       +:+ concat_lines (recorded (main sample_env sample_roster sample_disk).2)
  /\ loadSentEmails (sent_emails sample_disk)
     ⊆ loadSentEmails (sent_emails (main sample_env sample_roster sample_disk).1).
Proof.
  apply (run_extends_ledger sample_env sample_roster sample_disk). reflexivity.
Defined.

(** X8. Recorded implies sent, on the loaded set: with a well-formed ledger
    and a roster of clean addresses, every address that the ledger holds
    after a run and did not hold before is the normal form of the
    recipient of a mail that the transport accepted during that run. *)
Theorem new_ledger_entry_was_sent (w : Env) (r : Response) (d : Disk) (x : string) :
  ledger_wf (sent_emails d) = true -> roster_clean r = true ->
  x ∈ loadSentEmails (sent_emails (main w r d).1) ->
  x ∉ loadSentEmails (sent_emails d) ->
  exists m e, In m (sent (main w r d).2)
              /\ mail_to m = Some e /\ normalize_email e = x.
Proof.
  intros Hwf Hclean Hx Hnot.
  destruct (main_ledger w r d) as [Hl Ht].
  rewrite (loadSentEmails_text (sent_emails (main w r d).1)), Ht in Hx.
  rewrite (load_app _ _ Hwf), <- loadSentEmails_text in Hx.
  apply elem_of_union in Hx as [Hx | Hx]; [contradiction|].
  destruct (load_concat_lines _ _ Hl Hx) as (l & Hin & Hxl).
  destruct (main_recorded_sent w r d l Hin) as (m & e & Hm & He & ->).
  exists m, e. repeat split; [exact Hm | exact He |].
  destruct (main_attempt_origin w r d m (sent_attempts _ _ Hm))
    as (p & Hp & Hnew & ->).
  simpl in He. unfold roster_clean in Hclean. rewrite forallb_forall in Hclean.
  specialize (Hclean p Hp). rewrite He in Hclean.
  apply is_new_spec in Hnew as (e' & He' & Hne & _).
  rewrite He in He'. injection He' as <-.
  assert (clean_email e = true) as Hc.
  { destruct e; [now contradiction Hne | exact Hclean]. }
  rewrite (load_line_clean e Hc) in Hxl. apply elem_of_singleton in Hxl.
  now symmetry.
Qed.

Lemma new_ledger_entry_was_sent_witness :
  exists m e, In m (sent (main sample_env sample_roster sample_disk).2)
              /\ mail_to m = Some e /\ normalize_email e = "bruno@x.com".
Proof.
  apply (new_ledger_entry_was_sent sample_env sample_roster sample_disk
           "bruno@x.com").
  - reflexivity.
  - reflexivity.
  - vm_compute. reflexivity.
  - apply not_elem_of_empty.
Defined.

Module DeliveryFacts.

(** When the dispatcher reports no failure, every artifact was accepted
    and committed, in order. *)
Lemma enviar_loop_clean_trace (w : Env) (certs : list Certificate) :
  forall (i : nat) (d : Disk),
    no_failure (enviar_loop w i certs d).2 = true ->
    sent (enviar_loop w i certs d).2 = map (mailOptions w) certs
    /\ recorded (enviar_loop w i certs d).2
       = omap (fun c => ledger_line <$> email (participant c)) certs.
Proof.
  induction certs as [|c certs IH]; intros i d; [now split|].
  enviar_step IH w i c certs d; try discriminate.
  intros Hn. destruct (IH Hn) as [Hs Hr].
  change (mailOptions w c :: sent t2 = mailOptions w c :: map (mailOptions w) certs
          /\ ledger_line s :: recorded t2
             = ledger_line s
               :: omap (fun c0 => ledger_line <$> email (participant c0)) certs).
  now rewrite Hs, Hr.
Qed.

Lemma omap_artifact (w : Env) (kept : list Participant) :
  omap (fun c => ledger_line <$> email (participant c)) (map (artifact w) kept)
  = omap (fun p => ledger_line <$> email p) kept.
Proof.
  induction kept as [|p kept IH]; [reflexivity|].
  cbn. rewrite IH. reflexivity.
Qed.

Lemma gerarCertificados_loop_sent (w : Env) (ps : list Participant) :
  forall (i : nat) (d : Disk), sent (gerarCertificados_loop w i ps d).2 = [].
Proof.
  induction ps as [|p ps IH]; intros i d; [reflexivity|].
  simpl. destruct (gerarPDF w i "certificate.html" p d) as [[path|] d1];
    specialize (IH (S i) d1);
    destruct (gerarCertificados_loop w (S i) ps d1) as [[certs d2] t];
    exact IH.
Qed.

Lemma gerarCertificados_sent (w : Env) (ps : list Participant) (d : Disk) :
  sent (gerarCertificados w ps d).2 = [].
Proof.
  destruct ps as [|p ps]; [reflexivity|].
  apply (gerarCertificados_loop_sent w (p :: ps) 0 d).
Qed.

(** The rendering loop only adds files, the ones of its artifacts, at the
    certificate paths of its participants. *)
Lemma gerarCertificados_loop_pdfs (w : Env) (ps : list Participant) :
  forall (i : nat) (d : Disk),
    (forall path, is_Some (pdfs d !! path) ->
       is_Some (pdfs (gerarCertificados_loop w i ps d).1.2 !! path))
    /\ (forall c, In c (gerarCertificados_loop w i ps d).1.1 ->
          is_Some (pdfs (gerarCertificados_loop w i ps d).1.2 !! certificate c))
    /\ (forall path, (forall p, In p ps -> pdf_path w p <> path) ->
          pdfs (gerarCertificados_loop w i ps d).1.2 !! path = pdfs d !! path).
Proof.
  induction ps as [|p ps IH]; intros i d.
  { simpl. repeat split; [trivial | intros c [] ]. }
  simpl. rewrite gerarPDF_spec. destruct (render_succeeds w i).
  - match goal with |- context [gerarCertificados_loop w (S i) ps ?d1] =>
      destruct (IH (S i) d1) as (Hk & Hc & Hf);
      destruct (gerarCertificados_loop w (S i) ps d1) as [[certs d2] t] end.
    simpl in *. split; [|split].
    + intros path Hp. apply Hk.
      destruct (decide (pdf_path w p = path)) as [<- | Hne].
      * rewrite lookup_insert_eq. eauto.
      * now rewrite lookup_insert_ne.
    + intros c [<- | Hin]; [|now apply Hc].
      apply Hk. simpl. rewrite lookup_insert_eq. eauto.
    + intros path Hp. rewrite Hf by (intros q Hq; apply Hp; now right).
      apply lookup_insert_ne. apply Hp. now left.
  - destruct (IH (S i) d) as (Hk & Hc & Hf).
    destruct (gerarCertificados_loop w (S i) ps d) as [[certs d2] t].
    simpl in *. split; [exact Hk | split; [exact Hc|]].
    intros path Hp. apply Hf. intros q Hq. apply Hp. now right.
Qed.

Lemma enviarCertificadosPorEmail_pdfs (w : Env) (certs : list Certificate)
    (d : Disk) :
  pdfs (enviarCertificadosPorEmail w certs d).1 = pdfs d.
Proof.
  destruct certs as [|c certs]; [reflexivity|].
  now destruct (enviar_loop_ledger w (c :: certs) 0 d) as (_ & _ & _ & _ & Hp).
Qed.

(** The files after a run, from the participants it retained. *)
Lemma main_pdfs (w : Env) (r : Response) (d : Disk) :
  (forall path, is_Some (pdfs d !! path) ->
     is_Some (pdfs (main w r d).1 !! path))
  /\ (forall m, In m (attempts (main w r d).2) ->
        is_Some (pdfs (main w r d).1 !! attachment_path m))
  /\ (forall path, (forall p, In p (roster r) -> pdf_path w p <> path) ->
        pdfs (main w r d).1 !! path = pdfs d !! path).
Proof.
  destruct (lerCSV (loadSentEmails (sent_emails d)) r) as [kept|msg] eqn:H.
  - rewrite (main_resolved w r d kept H). simpl.
    rewrite enviarCertificadosPorEmail_pdfs, attempts_app.
    rewrite gerarCertificados_attempts, enviarCertificadosPorEmail_attempts.
    assert ((forall path, is_Some (pdfs d !! path) ->
               is_Some (pdfs (gerarCertificados w kept d).1.2 !! path))
            /\ (forall c, In c (gerarCertificados w kept d).1.1 ->
                  is_Some (pdfs (gerarCertificados w kept d).1.2 !! certificate c))
            /\ (forall path, (forall p, In p kept -> pdf_path w p <> path) ->
                  pdfs (gerarCertificados w kept d).1.2 !! path = pdfs d !! path))
      as (Hk & Hc & Hf).
    { destruct kept as [|q kept].
      - simpl. repeat split; [trivial | intros c []].
      - apply (gerarCertificados_loop_pdfs w (q :: kept) 0 d). }
    split; [exact Hk | split].
    + simpl. intros m (c & <- & Hin)%in_map_iff. simpl. now apply Hc.
    + intros path Hp. apply Hf. intros p Hin. apply Hp.
      rewrite (lerCSV_roster _ _ _ H) in Hin. now apply filter_In in Hin as [? _].
  - rewrite (main_rejected w r d msg H). simpl.
    repeat split; [trivial | intros m []].
Qed.

End DeliveryFacts.

Import DeliveryFacts.

(** X9. A run that reports no failure mails every retained roster row
    once, in roster order, and commits one line for each: the accepted
    mails are those of the rows that passed the filter and the committed
    lines are their normalized addresses. The filter looks at each row on
    its own, so an address that appears twice in the roster is mailed
    twice. *)
Theorem clean_run_mails_every_retained_row (w : Env) (r : Response) (d : Disk) :
  no_failure (main w r d).2 = true ->
  let kept := List.filter (is_new (loadSentEmails (sent_emails d))) (roster r) in
  sent (main w r d).2 = map (fun p => mailOptions w (artifact w p)) kept
  /\ recorded (main w r d).2 = omap (fun p => ledger_line <$> email p) kept.
Proof.
  intros Hn kept.
  destruct (lerCSV (loadSentEmails (sent_emails d)) r) as [kept'|msg] eqn:H.
  - pose proof (lerCSV_roster _ _ _ H) as Hk. fold kept in Hk. subst kept'.
    rewrite (main_resolved w r d kept H) in Hn |- *. simpl in Hn |- *.
    rewrite no_failure_app in Hn. apply andb_prop in Hn as [Hn1 Hn2].
    destruct (gerarCertificados_spec w kept d) as (Hc & He & _).
    rewrite (no_failure_render_errors _ Hn1) in He. symmetry in He.
    rewrite (select_all _ _ _ He) in Hc.
    rewrite sent_app, recorded_app, gerarCertificados_sent,
      gerarCertificados_recorded. simpl.
    destruct ((gerarCertificados w kept d).1.1) as [|c certs] eqn:Hcs.
    + destruct kept; [now split | discriminate Hc].
    + destruct (enviar_loop_clean_trace w (c :: certs) 0 _ Hn2) as [Hs Hr].
      change (enviarCertificadosPorEmail w (c :: certs) (gerarCertificados w kept d).1.2)
        with (enviar_loop w 0 (c :: certs) (gerarCertificados w kept d).1.2).
      rewrite Hs, Hr, Hc. split; [apply map_map|].
      apply omap_artifact.
  - assert (kept = []) as ->
      by (unfold kept; now destruct r as [? | [|] ? [?|]]).
    rewrite (main_rejected w r d msg H). now split.
Qed.

Lemma clean_run_mails_every_retained_row_witness :
  let r := HttpResponse true
             [sample_row "Ana Silva" "ana@x.com"; sample_row "Ana S." "ANA@x.com"]
             None in
  let kept := List.filter (is_new (loadSentEmails (sent_emails sample_disk)))
                          (roster r) in
  length kept = 2
  /\ sent (main sample_env r sample_disk).2
     = map (fun p => mailOptions sample_env (artifact sample_env p)) kept
  /\ recorded (main sample_env r sample_disk).2
     = omap (fun p => ledger_line <$> email p) kept.
Proof.
  intros r kept. split; [reflexivity|].
  apply (clean_run_mails_every_retained_row sample_env r sample_disk).
  reflexivity.
Defined.

(** X11. A run never removes a certificate file and writes only at the
    certificate paths of roster participants: a file that existed before
    the run exists after it, and a path that is the certificate path of no
    roster participant holds after the run what it held before. *)
Theorem run_only_adds_certificates (w : Env) (r : Response) (d : Disk) :
  (forall path, is_Some (pdfs d !! path) ->
     is_Some (pdfs (main w r d).1 !! path))
  /\ (forall path, (forall p, In p (roster r) -> pdf_path w p <> path) ->
        pdfs (main w r d).1 !! path = pdfs d !! path).
Proof.
  destruct (main_pdfs w r d) as (Hk & _ & Hf). now split.
Qed.

(** * Further properties of the renderer *)

Module ReplaceFacts.

Lemma strip_prefix_complete (pat rest : string) :
  strip_prefix pat (pat +:+ rest) = Some rest.
Proof.
  induction pat as [|a pat IH]; [reflexivity|].
  rewrite app_cons. simpl. now rewrite Ascii.eqb_refl.
Qed.

(** [find_first] finds the leftmost occurrence. *)
Lemma find_first_leftmost (pat : string) :
  forall s pre post,
    find_first pat s = Some (pre, post) ->
    forall pre' post', s = pre' +:+ pat +:+ post' ->
                       String.length pre <= String.length pre'.
Proof.
  induction s as [|c s IH]; intros pre post; simpl.
  - destruct (strip_prefix pat "") as [rest|]; [|discriminate].
    intros [= <- <-] pre' post' _. simpl. lia.
  - destruct (strip_prefix pat (String c s)) as [rest|] eqn:E.
    + intros [= <- <-] pre' post' _. simpl. lia.
    + destruct (find_first pat s) as [[pre0 post0]|] eqn:F; [|discriminate].
      intros [= <- <-] pre' post' Hs.
      destruct pre' as [|c' pre''].
      * rewrite app_empty_l in Hs. rewrite Hs, strip_prefix_complete in E.
        discriminate.
      * rewrite app_cons in Hs. injection Hs as -> Hs. simpl.
        apply le_n_S. exact (IH pre0 post0 eq_refl pre'' post' Hs).
Qed.

(** [find_first] misses no occurrence. *)
Lemma find_first_none (pat : string) :
  forall s, find_first pat s = None ->
            forall pre' post', s <> pre' +:+ pat +:+ post'.
Proof.
  induction s as [|c s IH]; simpl.
  - destruct (strip_prefix pat "") as [rest|] eqn:E; [discriminate|].
    intros _ pre' post' Hs. destruct pre' as [|c' pre''].
    + rewrite app_empty_l in Hs. rewrite Hs, strip_prefix_complete in E.
      discriminate.
    + rewrite app_cons in Hs. discriminate.
  - destruct (strip_prefix pat (String c s)) as [rest|] eqn:E; [discriminate|].
    destruct (find_first pat s) as [[pre0 post0]|] eqn:F; [discriminate|].
    intros _ pre' post' Hs. destruct pre' as [|c' pre''].
    + rewrite app_empty_l in Hs. rewrite Hs, strip_prefix_complete in E.
      discriminate.
    + rewrite app_cons in Hs. injection Hs as -> Hs.
      exact (IH eq_refl pre'' post' Hs).
Qed.

Lemma app_inv_length (a a' b b' : string) :
  a +:+ b = a' +:+ b' -> String.length a = String.length a' ->
  a = a' /\ b = b'.
Proof.
  revert a'. induction a as [|x a IH]; intros [|x' a'] H L;
    try discriminate L.
  - rewrite !app_empty_l in H. now split.
  - rewrite !app_cons in H. injection H as -> H. injection L as L.
    destruct (IH a' H L) as [-> ->]. now split.
Qed.

End ReplaceFacts.

Import ReplaceFacts.


Module PathFacts.

Lemma normalize_app (l1 l2 : list string) :
  forall acc, Path.normalize acc (l1 ++ l2)
              = Path.normalize (Path.normalize acc l1) l2.
Proof.
  induction l1 as [|seg l1 IH]; intros acc; [reflexivity|].
  simpl. destruct (String.eqb seg "" || String.eqb seg "."); [apply IH|].
  destruct (String.eqb seg ".."); apply IH.
Qed.

Lemma join_app (l1 l2 : list string) :
  Path.join (l1 ++ l2) = Path.join l1 +:+ Path.join l2.
Proof.
  induction l1 as [|seg l1 IH]; [reflexivity|].
  simpl. now rewrite IH, !app_assoc.
Qed.

Lemma length_app (a b : string) :
  String.length (a +:+ b) = String.length a + String.length b.
Proof.
  induction a as [|x a IH]; [reflexivity|].
  rewrite app_cons. simpl. now rewrite IH.
Qed.

Lemma contains_app (c : ascii) (a b : string) :
  contains_char c (a +:+ b) = contains_char c a || contains_char c b.
Proof.
  induction a as [|x a IH]; [reflexivity|].
  rewrite app_cons. simpl. now rewrite IH, orb_assoc.
Qed.

(** The last segment of a path is its base name. *)
Lemma basename_snoc (a s : string) :
  contains_char "/" s = false -> s <> "" ->
  Path.basename (a +:+ String "/" s) = s.
Proof.
  intros Hs Hne. unfold Path.basename.
  rewrite split_app, (split_no_sep _ _ Hs), List.filter_app. simpl.
  apply String.eqb_neq in Hne. rewrite Hne. simpl. apply last_last.
Qed.

(** The name given to a certificate file; it is never a special segment. *)
Lemma file_name_long (n e : string) :
  9 <= String.length (n +:+ " - (" +:+ e +:+ ").pdf").
Proof. rewrite !length_app. simpl. lia. Qed.

Lemma long_not_special (s : string) :
  9 <= String.length s ->
  String.eqb s "" = false /\ String.eqb s "." = false
  /\ String.eqb s ".." = false.
Proof.
  intros H. repeat split; apply String.eqb_neq; intros ->; simpl in H; lia.
Qed.

(** Where [path.resolve] puts a file of the [pdfs] directory. *)
Lemma resolve_pdfs (dir file : string) :
  contains_char "/" file = false -> 9 <= String.length file ->
  Path.resolve dir ("./pdfs/" +:+ file)
  = Path.join (Path.normalize [] (split "/" dir)) +:+ "/pdfs" +:+ String "/" file.
Proof.
  intros Hs Hl. destruct (long_not_special file Hl) as (E0 & E1 & E2).
  unfold Path.resolve.
  change ("./pdfs/" +:+ file) with (String "." (String "/" ("pdfs" +:+ String "/" file))).
  cbv iota beta.
  change (dir +:+ "/" +:+ String "." (String "/" ("pdfs" +:+ String "/" file)))
    with (dir +:+ String "/" ("." +:+ String "/" ("pdfs" +:+ String "/" file))).
  rewrite !split_app, (split_no_sep _ _ Hs). simpl split.
  rewrite normalize_app. simpl. rewrite E0, E1, E2. simpl.
  generalize (Path.normalize [] (split "/" dir)). intros N.
  replace ((N ++ ["pdfs"]) ++ [file]) with (N ++ ["pdfs"; file])
    by now rewrite <- List.app_assoc.
  transitivity (Path.join (N ++ ["pdfs"; file])).
  - destruct N; reflexivity.
  - rewrite join_app. f_equal.
    change (Path.join ["pdfs"; file])
      with ("/pdfs" +:+ String "/" (file +:+ "")).
    now rewrite app_empty_r.
Qed.

End PathFacts.

Import PathFacts.


(** * The header mapping *)

Module HeaderFacts.

Lemma trimStart_ws_app (ws s : string) :
  all_whitespace ws = true -> trimStart (ws +:+ s) = trimStart s.
Proof.
  induction ws as [|c ws IH]; [reflexivity|].
  simpl. intros [Hc Hw]%andb_prop. rewrite ?app_cons. simpl. rewrite Hc.
  now apply IH.
Qed.

Lemma trimEnd_all_whitespace (ws : string) :
  all_whitespace ws = true -> trimEnd ws = "".
Proof.
  induction ws as [|c ws IH]; [reflexivity|].
  simpl. intros [Hc Hw]%andb_prop. now rewrite (IH Hw), Hc.
Qed.

Lemma trimEnd_app_ws (s ws : string) :
  all_whitespace ws = true -> trimEnd (s +:+ ws) = trimEnd s.
Proof.
  intros Hw. induction s as [|c s IH].
  - rewrite app_empty_l. now apply trimEnd_all_whitespace.
  - rewrite app_cons. simpl. now rewrite IH.
Qed.

Lemma trimEnd_snoc (s : string) (c : ascii) :
  is_whitespace c = false ->
  trimEnd (s +:+ String c "") = s +:+ String c "".
Proof.
  intros Hc. induction s as [|a s IH].
  - rewrite app_empty_l. simpl. now rewrite Hc.
  - rewrite app_cons. simpl. rewrite IH.
    destruct s; reflexivity.
Qed.

Lemma strip_trailing_snoc (h : string) :
  strip_trailing_quote (h +:+ String QUOTE "") = h.
Proof.
  induction h as [|c h IH]; [reflexivity|].
  rewrite app_cons. simpl. rewrite IH. destruct h; reflexivity.
Qed.

Lemma strip_trailing_plain (s : string) :
  contains_char QUOTE s = false -> strip_trailing_quote s = s.
Proof.
  induction s as [|c s IH]; [reflexivity|].
  simpl. intros [Hc Hs]%orb_false_elim. rewrite (IH Hs).
  destruct s; [now rewrite Hc | reflexivity].
Qed.

End HeaderFacts.

Import HeaderFacts.

(** X15. A header written between quotes, with any white space around the
    quotes, is mapped to the text between the quotes, as it is: the white
    space outside the quotes goes, the one inside stays. *)
Theorem mapHeaders_quoted (ws1 ws2 h : string) :
  all_whitespace ws1 = true -> all_whitespace ws2 = true ->
  mapHeaders (ws1 +:+ String QUOTE (h +:+ String QUOTE "") +:+ ws2) = h.
Proof.
  intros H1 H2. unfold mapHeaders, trim.
  rewrite (trimStart_ws_app _ _ H1), app_cons.
  change (trimStart (String QUOTE ((h +:+ String QUOTE "") +:+ ws2)))
    with (String QUOTE ((h +:+ String QUOTE "") +:+ ws2)).
  rewrite <- app_cons, (trimEnd_app_ws _ _ H2), <- app_cons.
  rewrite (trimEnd_snoc (String QUOTE h) QUOTE eq_refl), app_cons.
  unfold replace_edge_quotes. simpl strip_leading_quote.
  apply strip_trailing_snoc.
Qed.

Lemma mapHeaders_quoted_witness :
  mapHeaders (" " +:+ String QUOTE (" Nome Completo" +:+ String QUOTE "")
              +:+ String "013" "")
  = " Nome Completo".
Proof.
  apply (mapHeaders_quoted " " (String "013" "") " Nome Completo"); reflexivity.
Defined.

(** X16. A header that holds no quote is mapped to itself without the
    white space around it. *)
Theorem mapHeaders_unquoted (header : string) :
  contains_char QUOTE header = false -> mapHeaders header = trim header.
Proof.
  intros H. unfold mapHeaders, replace_edge_quotes.
  assert (contains_char QUOTE (trim header) = false) as Ht
    by (unfold trim; now apply contains_trimEnd, contains_trimStart).
  destruct (trim header) as [|c r] eqn:E; [reflexivity|].
  simpl in Ht. apply orb_false_elim in Ht as [Hc Hr].
  unfold strip_leading_quote. rewrite Hc.
  apply strip_trailing_plain. simpl. now rewrite Hc, Hr.
Qed.

Lemma mapHeaders_unquoted_witness :
  mapHeaders "  Nome Completo " = trim "  Nome Completo ".
Proof. apply (mapHeaders_unquoted "  Nome Completo "). reflexivity. Defined.

(** * The start-up check *)

Module RequisitosFacts.

Import Requisitos.

(** The loop over the variables: the flag stays up only when no variable
    is blank, and each variable gets its line, whatever came before. *)
Lemma check_env_spec (is_blank : string -> bool) (vars : list string) :
  forall b,
    check_env is_blank vars b
    = (b && forallb (fun v => negb (is_blank v)) vars,
       map (fun v => if is_blank v then ReqMissing v else ReqOk v) vars).
Proof.
  induction vars as [|v vars IH]; intros b; simpl.
  - now rewrite andb_true_r.
  - destruct (is_blank v); rewrite IH; simpl.
    + now rewrite andb_false_r.
    + reflexivity.
Qed.

Lemma missing_vars_map (is_blank : string -> bool) (vars : list string) :
  missing_vars (map (fun v => if is_blank v then ReqMissing v else ReqOk v) vars)
  = List.filter is_blank vars.
Proof.
  induction vars as [|v vars IH]; [reflexivity|].
  simpl. destruct (is_blank v); cbn; now rewrite IH.
Qed.

Lemma probes_map (is_blank : string -> bool) (vars : list string) :
  probes (map (fun v => if is_blank v then ReqMissing v else ReqOk v) vars) = [].
Proof.
  induction vars as [|v vars IH]; [reflexivity|].
  simpl. destruct (is_blank v); cbn; exact IH.
Qed.

Lemma missing_vars_app (t1 t2 : list req_event) :
  missing_vars (t1 ++ t2) = missing_vars t1 ++ missing_vars t2.
Proof. unfold missing_vars. apply omap_app. Qed.

Lemma probes_app (t1 t2 : list req_event) :
  probes (t1 ++ t2) = probes t1 ++ probes t2.
Proof. unfold probes. apply omap_app. Qed.

Lemma blank_false (env : gmap string string) (v : string) :
  blank env v = false <-> exists s, env !! v = Some s /\ trim s <> "".
Proof.
  unfold blank. destruct (env !! v) as [s|].
  - rewrite orb_false_iff, negb_false_iff, String.eqb_neq. split.
    + intros [_ H]. now exists s.
    + intros (s' & [= <-] & H). split; [|exact H].
      destruct s; [now contradiction H | reflexivity].
  - split; [discriminate | now intros (? & ? & _)].
Qed.

Lemma forallb_not_blank (env : gmap string string) (vars : list string) :
  forallb (fun v => negb (blank env v)) vars = true <->
  forall v, In v vars -> exists s, env !! v = Some s /\ trim s <> "".
Proof.
  rewrite forallb_forall. split; intros H v Hv.
  - apply blank_false, negb_true_iff. now apply H.
  - apply negb_true_iff, blank_false. now apply H.
Qed.

(** Splits on everything [verificarRequisitos] looks at. *)
Ltac requisitos_cases h :=
  unfold verificarRequisitos; rewrite check_env_spec;
  destruct (forallb (fun v => negb (blank (process_env h) v)) envVars);
  destruct (templates_exists h), (pdfs_exists h), (mkdir_ok h);
  destruct (fetch_head h GOOGLE) as [? | [|] ?];
  destruct (fetch_head h (planilhaUrl (process_env h))) as [? | [|] ?];
  cbn.

(** The same, keeping the log as the loop built it. *)
Ltac requisitos_log h :=
  unfold verificarRequisitos; rewrite check_env_spec;
  destruct (forallb (fun v => negb (blank (process_env h) v)) envVars);
  destruct (templates_exists h), (pdfs_exists h), (mkdir_ok h);
  destruct (fetch_head h GOOGLE) as [? | [|] ?];
  destruct (fetch_head h (planilhaUrl (process_env h))) as [? | [|] ?];
  cbn [andb negb outcome log].

End RequisitosFacts.

(** X17. When the start-up check lets the program go on:
    [verificarRequisitos] returns, instead of exiting or throwing, exactly
    when each of the four variables is set to a value that is not blank,
    the [templates] directory exists, the [pdfs] directory exists or could
    be created, the probe of the Internet did not throw and the probe of
    the sheet answered with success. An answer without success to the
    Internet probe is only a warning. *)
Theorem verificarRequisitos_passes_iff (h : Requisitos.Host) :
  Requisitos.outcome (Requisitos.verificarRequisitos h) = Requisitos.ReqPassed
  <->
  (forall v, In v Requisitos.envVars ->
     exists s, Requisitos.process_env h !! v = Some s /\ trim s <> "")
  /\ Requisitos.templates_exists h = true
  /\ (Requisitos.pdfs_exists h = true \/ Requisitos.mkdir_ok h = true)
  /\ (forall msg, Requisitos.fetch_head h Requisitos.GOOGLE
                  <> Requisitos.HeadThrows msg)
  /\ (exists status,
        Requisitos.fetch_head h
          (Requisitos.planilhaUrl (Requisitos.process_env h))
        = Requisitos.HeadResponse true status).
Proof.
  rewrite <- RequisitosFacts.forallb_not_blank.
  RequisitosFacts.requisitos_cases h;
    (split;
     [ try discriminate; intros _; repeat split; eauto; discriminate
     | intros (H1 & H2 & [H3 | H3] & H4 & [st H5]);
       try discriminate; try reflexivity;
       try (exfalso; eapply H4; reflexivity) ]).
Qed.

(** X18. The start-up check does not stop at the first problem: the
    variables it reports as missing are all the blank ones, in the order
    of its list, whatever else is wrong; unless [mkdirSync] throws it
    sends both probes, the one to the sheet going to the address built
    from [JSAUTOMAIL_PLANILHA], with the text [undefined] in it when that
    variable is not set; and when it exits, the exit code is 1. *)
Theorem verificarRequisitos_reports_all (h : Requisitos.Host) :
  let res := Requisitos.verificarRequisitos h in
  Requisitos.missing_vars (Requisitos.log res)
  = List.filter (Requisitos.blank (Requisitos.process_env h)) Requisitos.envVars
  /\ (Requisitos.outcome res <> Requisitos.ReqThrew ->
      Requisitos.probes (Requisitos.log res)
      = [Requisitos.GOOGLE; Requisitos.planilhaUrl (Requisitos.process_env h)])
  /\ (Requisitos.process_env h !! "JSAUTOMAIL_PLANILHA" = None ->
      Requisitos.planilhaUrl (Requisitos.process_env h)
      = "https://docs.google.com/spreadsheets/d/undefined/gviz/tq?tqx=out:csv")
  /\ (forall c, Requisitos.outcome res = Requisitos.ReqExit c -> c = 1).
Proof.
  cbv zeta. split; [|split; [|split]].
  - RequisitosFacts.requisitos_log h;
      rewrite ?RequisitosFacts.missing_vars_app,
        RequisitosFacts.missing_vars_map; cbn;
      now rewrite ?app_nil_r.
  - RequisitosFacts.requisitos_log h; intros Hn;
      try (now contradiction Hn);
      rewrite ?RequisitosFacts.probes_app, RequisitosFacts.probes_map;
      reflexivity.
  - intros H. unfold Requisitos.planilhaUrl. now rewrite H.
  - RequisitosFacts.requisitos_cases h; intros c Hc;
      try discriminate Hc; now injection Hc as <-.
Qed.


Example sample_host_exits :
  Requisitos.outcome (Requisitos.verificarRequisitos Requisitos.sample_host)
  = Requisitos.ReqExit 1
  /\ Requisitos.missing_vars
       (Requisitos.log (Requisitos.verificarRequisitos Requisitos.sample_host))
     = ["JSAUTOMAIL_PASSWORD"; "JSAUTOMAIL_PLANILHA"]
  /\ In Requisitos.ReqPdfsCreated
        (Requisitos.log (Requisitos.verificarRequisitos Requisitos.sample_host)).
Proof. vm_compute. repeat split. right. right. right. right. right. now left. Qed.

Example sample_host_ready_passes :
  Requisitos.outcome
    (Requisitos.verificarRequisitos Requisitos.sample_host_ready)
  = Requisitos.ReqPassed.
Proof. vm_compute. reflexivity. Qed.

(** * The variant without ledger *)

Module LocalFacts.

Lemma local_enviar_loop_attempts (w : Env) (certs : list Certificate) :
  forall i, attempts (LocalVariant.enviar_loop w i certs)
            = map (mailOptions w) certs.
Proof.
  induction certs as [|c certs IH]; intros i; [reflexivity|].
  simpl. rewrite attempts_app, IH. unfold LocalVariant.send_one.
  now destruct (sendMail_ok w i).
Qed.

Lemma local_enviar_loop_recorded (w : Env) (certs : list Certificate) :
  forall i, recorded (LocalVariant.enviar_loop w i certs) = [].
Proof.
  induction certs as [|c certs IH]; intros i; [reflexivity|].
  simpl. rewrite recorded_app, IH. unfold LocalVariant.send_one.
  now destruct (sendMail_ok w i).
Qed.

(** The trace and the ledger of a run of the variant. *)
Lemma local_main_spec (w : Env) (rows : list (gmap string string)) (d : Disk) :
  attempts (LocalVariant.main w rows None d).2
  = map (fun p => mailOptions w (artifact w p))
        (select_by_index (render_succeeds w) 0 (map LocalVariant.on_data rows))
  /\ recorded (LocalVariant.main w rows None d).2 = []
  /\ sent_emails (LocalVariant.main w rows None d).1 = sent_emails d.
Proof.
  unfold LocalVariant.main, LocalVariant.lerCSV, LocalVariant.gerarCertificados,
    LocalVariant.enviarCertificadosPorEmail.
  destruct (gerarCertificados_loop_spec w (map LocalVariant.on_data rows) 0 d)
    as (Hc & _ & Hs).
  pose proof (gerarCertificados_loop_attempts w
                (map LocalVariant.on_data rows) 0 d) as Ha.
  pose proof (gerarCertificados_loop_recorded w
                (map LocalVariant.on_data rows) 0 d) as Hr.
  destruct (gerarCertificados_loop w 0 (map LocalVariant.on_data rows) d)
    as [[certs d1] t1]. simpl in *.
  rewrite attempts_app, recorded_app, Ha, Hr, local_enviar_loop_attempts,
    local_enviar_loop_recorded, Hc, map_map.
  now repeat split.
Qed.

Lemma filter_empty_ledger (ps : list Participant) :
  forallb (fun p => truthy (email p)) ps = true ->
  List.filter (is_new ∅) ps = ps.
Proof.
  induction ps as [|p ps IH]; [reflexivity|].
  simpl. intros [Hp Hps]%andb_prop.
  now rewrite is_new_empty_ledger, Hp, (IH Hps).
Qed.

End LocalFacts.

(** X20. The variant that reads [data.csv] keeps no memory of what it
    sent: a run commits nothing and leaves the ledger file as it found it,
    and the mails it attempts do not depend on the disk, so a second run
    over the same rows attempts every mail of the first again. *)
Theorem local_variant_repeats_every_run (w : Env)
    (rows : list (gmap string string)) (failure : option string) (d : Disk) :
  sent_emails (LocalVariant.main w rows failure d).1 = sent_emails d
  /\ recorded (LocalVariant.main w rows failure d).2 = []
  /\ attempts (LocalVariant.main w rows failure
                 (LocalVariant.main w rows failure d).1).2
     = attempts (LocalVariant.main w rows failure d).2.
Proof.
  destruct failure as [msg|]; [now repeat split|].
  destruct (LocalFacts.local_main_spec w rows d) as (Ha & Hr & Hs).
  destruct (LocalFacts.local_main_spec w rows (LocalVariant.main w rows None d).1)
    as (Ha' & _ & _).
  split; [exact Hs | split; [exact Hr|]]. now rewrite Ha, Ha'.
Qed.

(** X21. The variant that reads [data.csv] filters nothing: it attempts
    one mail for every row whose certificate was rendered, in order, also
    for a row without address, whose mail then has no recipient. *)
Theorem local_variant_mails_every_row (w : Env)
    (rows : list (gmap string string)) (d : Disk) :
  attempts (LocalVariant.main w rows None d).2
  = map (fun p => mailOptions w (artifact w p))
        (select_by_index (render_succeeds w) 0 (map LocalVariant.on_data rows))
  /\ (forall row, row !! LocalVariant.COL_USER = None ->
        mail_to (mailOptions w (artifact w (LocalVariant.on_data row))) = None)
  /\ (select_by_index (fun k => negb (render_succeeds w k)) 0
        (map LocalVariant.on_data rows) = [] ->
      length (attempts (LocalVariant.main w rows None d).2) = length rows).
Proof.
  destruct (LocalFacts.local_main_spec w rows d) as (Ha & _ & _).
  split; [exact Ha | split; [intros row H; exact H|]].
  intros Hall. rewrite Ha, (select_all _ _ _ Hall).
  now rewrite !length_map.
Qed.

(** X22. The two variants agree where the ledger has nothing to say: with
    no ledger file yet and a roster in which every address is non-empty,
    the ledger-keeping run attempts exactly the mails that the variant
    without ledger attempts for the same participants. *)
Theorem variants_agree_on_first_run (w : Env)
    (rows rows' : list (gmap string string)) (d : Disk) :
  sent_emails d = None ->
  map on_data rows = map LocalVariant.on_data rows' ->
  forallb (fun p => truthy (email p)) (map on_data rows) = true ->
  attempts (main w (HttpResponse true rows None) d).2
  = attempts (LocalVariant.main w rows' None d).2.
Proof.
  intros Hd Hrows Hall.
  destruct (LocalFacts.local_main_spec w rows' d) as (-> & _ & _).
  assert (lerCSV (loadSentEmails (sent_emails d)) (HttpResponse true rows None)
          = Resolved (map on_data rows)) as H.
  { rewrite Hd. simpl. f_equal. now apply LocalFacts.filter_empty_ledger. }
  destruct (main_trace w _ d _ H) as [_ ->]. now rewrite Hrows.
Qed.

Lemma variants_agree_on_first_run_witness :
  attempts (main sample_env
              (HttpResponse true [sample_row "Ana Silva" "ana@x.com"] None)
              sample_disk).2
  = attempts (LocalVariant.main sample_env
                [ {[ COL_NAME := "Ana Silva";
                     LocalVariant.COL_USER := "ana@x.com" ]} ] None
                sample_disk).2.
Proof.
  apply (variants_agree_on_first_run sample_env
           [sample_row "Ana Silva" "ana@x.com"]
           [ {[ COL_NAME := "Ana Silva"; LocalVariant.COL_USER := "ana@x.com" ]} ]
           sample_disk); reflexivity.
Defined.

(** X23. The start-up check of the variant without ledger lets the program
    go on exactly when each of its three variables is set to a non-empty
    value, [data.csv] and the [templates] directory exist, and the [pdfs]
    directory exists or could be created. A value made of white space is
    accepted, which the other check refuses. *)
Theorem local_verificarRequisitos_passes_iff (h : LocalVariant.Host) :
  Requisitos.outcome (LocalVariant.verificarRequisitos h) = Requisitos.ReqPassed
  <->
  (forall v, In v LocalVariant.envVars ->
     exists s, LocalVariant.process_env h !! v = Some s /\ s <> "")
  /\ LocalVariant.data_csv_exists h = true
  /\ LocalVariant.templates_exists h = true
  /\ (LocalVariant.pdfs_exists h = true \/ LocalVariant.mkdir_ok h = true).
Proof.
  assert (forallb (fun v => negb (LocalVariant.blank (LocalVariant.process_env h) v))
            LocalVariant.envVars = true
          <-> forall v, In v LocalVariant.envVars ->
                exists s, LocalVariant.process_env h !! v = Some s /\ s <> "")
    as <-.
  { rewrite forallb_forall. split; intros H v Hv; specialize (H v Hv).
    - unfold LocalVariant.blank in H. rewrite negb_involutive in H.
      destruct (LocalVariant.process_env h !! v) as [[|c s]|];
        try discriminate H. now eexists.
    - destruct H as (s & Hs & Hne). unfold LocalVariant.blank.
      rewrite Hs, negb_involutive.
      destruct s; [now contradiction Hne | reflexivity]. }
  unfold LocalVariant.verificarRequisitos.
  rewrite RequisitosFacts.check_env_spec.
  destruct (forallb _ LocalVariant.envVars);
    destruct (LocalVariant.data_csv_exists h), (LocalVariant.templates_exists h),
      (LocalVariant.pdfs_exists h), (LocalVariant.mkdir_ok h); cbn;
    (split;
     [ try discriminate; intros _; repeat split; eauto
     | intros (H1 & H2 & H3 & [H4 | H4]);
       try discriminate; reflexivity ]).
Qed.

(** * What a run renders *)

Module RenderedFacts.

Lemma written_app (t1 t2 : list event) :
  written (t1 ++ t2) = written t1 ++ written t2.
Proof. unfold written. apply omap_app. Qed.

Lemma written_In (t : list event) (p : Participant) (path : string) :
  In (p, path) (written t) -> In (EvPdf p path) t.
Proof.
  induction t as [|e t IH]; [intros []|].
  destruct e; simpl; try (intros H; right; now apply IH).
  intros [[= -> ->] | H]; [now left | right; now apply IH].
Qed.

Lemma render_errors_In (t : list event) (p : Participant) :
  In p (render_errors t) -> In (EvRenderError p) t.
Proof.
  induction t as [|e t IH]; [intros []|].
  destruct e; simpl; try (intros H; right; now apply IH).
  intros [-> | H]; [now left | right; now apply IH].
Qed.

(** The element at a position that satisfies the test is selected. *)
Lemma select_by_index_at {A : Type} (ok : nat -> bool) (l1 l2 : list A) (x : A) :
  forall i, ok (i + length l1) = true ->
            In x (select_by_index ok i (l1 ++ x :: l2)).
Proof.
  induction l1 as [|y l1 IH]; intros i; simpl.
  - rewrite Nat.add_0_r. intros ->. now left.
  - rewrite <- Nat.add_succ_comm. intros H.
    destruct (ok i); [right|]; now apply IH.
Qed.

(** The rendering loop writes one file for each participant whose
    rendering succeeded, in order, and nothing else. *)
Lemma gerarCertificados_loop_store (w : Env) (ps : list Participant) :
  forall (i : nat) (d : Disk),
    pdfs (gerarCertificados_loop w i ps d).1.2
    = foldl (write_certificate w) (pdfs d)
            (select_by_index (render_succeeds w) i ps)
    /\ written (gerarCertificados_loop w i ps d).2
       = map (fun p => (p, pdf_path w p))
             (select_by_index (render_succeeds w) i ps).
Proof.
  induction ps as [|p ps IH]; intros i d; [now split|].
  simpl. rewrite gerarPDF_spec. destruct (render_succeeds w i).
  - match goal with |- context [gerarCertificados_loop w (S i) ps ?d1] =>
      destruct (IH (S i) d1) as (Hs & Hw);
      destruct (gerarCertificados_loop w (S i) ps d1) as [[certs d2] t] end.
    simpl in *. rewrite Hs, Hw. now split.
  - destruct (IH (S i) d) as (Hs & Hw).
    destruct (gerarCertificados_loop w (S i) ps d) as [[certs d2] t].
    simpl in *. now split.
Qed.

Lemma gerarCertificados_store (w : Env) (ps : list Participant) (d : Disk) :
  pdfs (gerarCertificados w ps d).1.2
  = foldl (write_certificate w) (pdfs d)
          (select_by_index (render_succeeds w) 0 ps)
  /\ written (gerarCertificados w ps d).2
     = map (fun p => (p, pdf_path w p))
           (select_by_index (render_succeeds w) 0 ps).
Proof.
  destruct ps as [|p ps]; [now split|].
  apply (gerarCertificados_loop_store w (p :: ps) 0 d).
Qed.

(** The dispatcher writes no certificate. *)
Lemma enviar_loop_written (w : Env) (certs : list Certificate) :
  forall (i : nat) (d : Disk), written (enviar_loop w i certs d).2 = [].
Proof.
  induction certs as [|c certs IH]; intros i d; [reflexivity|].
  enviar_step IH w i c certs d; exact IH.
Qed.

Lemma enviarCertificadosPorEmail_written (w : Env) (certs : list Certificate)
    (d : Disk) :
  written (enviarCertificadosPorEmail w certs d).2 = [].
Proof.
  destruct certs as [|c certs]; [reflexivity|].
  apply (enviar_loop_written w (c :: certs) 0 d).
Qed.

(** The files of a run, from the participants it retained. *)
Lemma main_store (w : Env) (r : Response) (d : Disk) (kept : list Participant) :
  lerCSV (loadSentEmails (sent_emails d)) r = Resolved kept ->
  pdfs (main w r d).1
  = foldl (write_certificate w) (pdfs d)
          (select_by_index (render_succeeds w) 0 kept)
  /\ written (main w r d).2
     = map (fun p => (p, pdf_path w p))
           (select_by_index (render_succeeds w) 0 kept).
Proof.
  intros H. rewrite (main_resolved w r d kept H). simpl.
  destruct (gerarCertificados_store w kept d) as [Hs Hw].
  rewrite enviarCertificadosPorEmail_pdfs, written_app,
    enviarCertificadosPorEmail_written, app_nil_r.
  now split.
Qed.

End RenderedFacts.

Import RenderedFacts.

(** C4. Partial-failure isolation: in a run that retained the participants
    [kept], the participants reported as rendering failures are those whose
    rendering failed; a certificate is written, in order, for each of the
    others and for no one else, so the [pdfs] directory after the run is
    the one before it with those certificates written; and the mails
    handed to the transport are those of the participants whose rendering
    succeeded, in order, one each, whatever the transport answers. In a
    batch a, b, c where only the rendering of b fails, b alone is reported,
    the certificates of a and c are written from the template and the
    attempts are the mails of a and c. The accepted mails are among the
    attempted ones, and the dispatcher attempts every artifact it is given,
    whatever happens to the others. *)
Theorem partial_failure_isolation (w : Env) (r : Response) (d : Disk)
    (kept : list Participant) :
  lerCSV (loadSentEmails (sent_emails d)) r = Resolved kept ->
  let t := (main w r d).2 in
  render_errors t = select_by_index (fun k => negb (render_succeeds w k)) 0 kept
  /\ written t = map (fun p => (p, pdf_path w p))
                     (select_by_index (render_succeeds w) 0 kept)
  /\ pdfs (main w r d).1
     = foldl (write_certificate w) (pdfs d)
             (select_by_index (render_succeeds w) 0 kept)
  /\ attempts t = map (fun p => mailOptions w (artifact w p))
                      (select_by_index (render_succeeds w) 0 kept)
  /\ (forall a b c, kept = [a; b; c] ->
        render_succeeds w 0 = true -> render_succeeds w 1 = false ->
        render_succeeds w 2 = true ->
        render_errors t = [b]
        /\ written t = [(a, pdf_path w a); (c, pdf_path w c)]
        /\ (exists content,
              templates w !! "certificate.html" = Some content
              /\ pdfs (main w r d).1
                 = <[pdf_path w c := render_html content c]>
                     (<[pdf_path w a := render_html content a]> (pdfs d)))
        /\ attempts t = [mailOptions w (artifact w a); mailOptions w (artifact w c)])
  /\ (forall m, In m (sent t) -> In m (attempts t))
  /\ (forall certs d',
        attempts (enviarCertificadosPorEmail w certs d').2
        = map (mailOptions w) certs).
Proof.
  intros H t. destruct (main_trace w r d kept H) as [He Ha].
  destruct (main_store w r d kept H) as [Hs Hw]. fold t in He, Ha, Hw.
  split; [exact He|]. split; [exact Hw|]. split; [exact Hs|].
  split; [exact Ha|]. split; [|split].
  - intros a b c Hk R0 R1 R2. subst kept. rewrite He, Hw, Hs, Ha. simpl.
    rewrite R0, R1, R2. simpl. repeat split.
    unfold render_succeeds in R0.
    destruct (templates w !! "certificate.html") as [content|] eqn:E;
      [|discriminate R0].
    exists content. split; [reflexivity|].
    unfold write_certificate, certificate_html. now rewrite E.
  - apply sent_attempts.
  - intros certs d'. apply enviarCertificadosPorEmail_attempts.
Qed.

Lemma partial_failure_isolation_witness :
  let w := sample_env_second_render_fails in
  let a := on_data (sample_row "Ana Silva" "ana@x.com") in
  let b := on_data (sample_row "Bruno" "bruno@x.com") in
  let c := on_data (sample_row "Carla" "carla@x.com") in
  lerCSV (loadSentEmails (sent_emails sample_disk)) sample_roster
  = Resolved [a; b; c]
  /\ render_errors (main w sample_roster sample_disk).2 = [b]
  /\ written (main w sample_roster sample_disk).2
     = [(a, pdf_path w a); (c, pdf_path w c)]
  /\ (exists content,
        templates w !! "certificate.html" = Some content
        /\ pdfs (main w sample_roster sample_disk).1
           = <[pdf_path w c := render_html content c]>
               (<[pdf_path w a := render_html content a]> (pdfs sample_disk)))
  /\ attempts (main w sample_roster sample_disk).2
     = [mailOptions w (artifact w a); mailOptions w (artifact w c)].
Proof.
  intros w a b c.
  assert (lerCSV (loadSentEmails (sent_emails sample_disk)) sample_roster
          = Resolved [a; b; c]) as H by reflexivity.
  split; [exact H|].
  destruct (partial_failure_isolation w sample_roster sample_disk [a; b; c] H)
    as (_ & _ & _ & _ & Habc & _).
  apply (Habc a b c); reflexivity.
Defined.

(** C10. A roster row whose address is non-empty but made of white space
    only passes the ledger filter whatever the ledger holds: its normal
    form is the empty string, which the loaded set never contains. The
    participant is therefore retained; its certificate is rendered, that
    is, whenever the template is there and the engine works at its turn,
    the file is written, and a send to that white-space address is
    attempted with that file attached. Only a failure of the rendering
    itself, which is then reported, keeps the mail from being attempted. *)
Theorem whitespace_email_passes_filter (w : Env) (d : Disk)
    (rows1 rows2 : list (gmap string string)) (row : gmap string string)
    (e : string) :
  row !! COL_EMAIL = Some e -> e <> "" -> all_whitespace e = true ->
  let r := HttpResponse true (rows1 ++ row :: rows2) None in
  let p := on_data row in
  let turn := length (List.filter (is_new (loadSentEmails (sent_emails d)))
                                  (map on_data rows1)) in
  normalize_email e = ""
  /\ ("" ∉ loadSentEmails (sent_emails d))
  /\ is_new (loadSentEmails (sent_emails d)) p = true
  /\ (exists kept, lerCSV (loadSentEmails (sent_emails d)) r = Resolved kept
                   /\ In p kept)
  /\ (forall content,
        templates w !! "certificate.html" = Some content ->
        engine_ok w turn = true ->
        In (EvPdf p (pdf_path w p)) (main w r d).2
        /\ is_Some (pdfs (main w r d).1 !! pdf_path w p)
        /\ exists m, In m (attempts (main w r d).2)
                     /\ mail_to m = Some e
                     /\ attachment_path m = pdf_path w p)
  /\ (render_succeeds w turn = false -> In (EvRenderError p) (main w r d).2).
Proof.
  intros He Hne Hws r p turn.
  pose proof (normalize_all_whitespace e Hws) as Hn.
  pose proof (loadSentEmails_no_blank (sent_emails d)) as Hb.
  assert (is_new (loadSentEmails (sent_emails d)) p = true) as Hnew.
  { apply is_new_spec. exists e. repeat split; [exact He | exact Hne |].
    now rewrite Hn. }
  set (k1 := List.filter (is_new (loadSentEmails (sent_emails d)))
                         (map on_data rows1)).
  set (k2 := List.filter (is_new (loadSentEmails (sent_emails d)))
                         (map on_data rows2)).
  assert (lerCSV (loadSentEmails (sent_emails d)) r = Resolved (k1 ++ p :: k2))
    as Hk.
  { unfold r. rewrite lerCSV_rows. fold p. now rewrite Hnew. }
  destruct (main_trace w r d _ Hk) as [Herr Hatt].
  destruct (main_store w r d _ Hk) as [_ Hw].
  split; [exact Hn|]. split; [exact Hb|]. split; [exact Hnew|].
  split; [exists (k1 ++ p :: k2); split; [exact Hk | apply in_app_iff; right; now left]|].
  split.
  - intros content Ht Hok.
    assert (In p (select_by_index (render_succeeds w) 0 (k1 ++ p :: k2))) as Hsel.
    { apply select_by_index_at. unfold render_succeeds. rewrite Ht. exact Hok. }
    assert (In (mailOptions w (artifact w p)) (attempts (main w r d).2)) as Hm.
    { rewrite Hatt. now apply (in_map (fun q => mailOptions w (artifact w q))). }
    split; [|split].
    + apply written_In. rewrite Hw.
      now apply (in_map (fun q => (q, pdf_path w q))).
    + exact (proj1 (proj2 (main_pdfs w r d)) _ Hm).
    + exists (mailOptions w (artifact w p)). repeat split; [exact Hm | exact He].
  - intros Hfail. apply render_errors_In. rewrite Herr.
    apply (select_by_index_at (fun k => negb (render_succeeds w k))).
    simpl. fold k1 in turn. fold turn. now rewrite Hfail.
Qed.

Lemma whitespace_email_passes_filter_witness :
  let d := {| sent_emails := Some ("  " +:+ String LF ""); pdfs := ∅ |} in
  let r := HttpResponse true
             ([sample_row "Ana Silva" "ana@x.com"] ++ sample_row "Bob" "  "
              :: []) None in
  let p := on_data (sample_row "Bob" "  ") in
  normalize_email "  " = ""
  /\ is_new (loadSentEmails (sent_emails d)) p = true
  /\ In (EvPdf p (pdf_path sample_env p)) (main sample_env r d).2
  /\ is_Some (pdfs (main sample_env r d).1 !! pdf_path sample_env p)
  /\ exists m, In m (attempts (main sample_env r d).2)
               /\ mail_to m = Some "  "
               /\ attachment_path m = pdf_path sample_env p.
Proof.
  intros d r p.
  destruct (whitespace_email_passes_filter sample_env d
              [sample_row "Ana Silva" "ana@x.com"] [] (sample_row "Bob" "  ")
              "  " eq_refl ltac:(discriminate) eq_refl)
    as (H1 & _ & H3 & _ & H5 & _).
  split; [exact H1|]. split; [exact H3|].
  apply (H5 "<h1>{{participant.name}}</h1>"); reflexivity.
Defined.

(** X10. Every mail a run hands to the transport is the mail of a roster
    participant whose certificate that run wrote: the attached path is the
    path at which [gerarPDF] wrote the file for that participant during
    the run, and a file is at that path when the run ends. *)
Theorem attachment_is_on_disk (w : Env) (r : Response) (d : Disk) (m : MailOptions) :
  In m (attempts (main w r d).2) ->
  exists p, In p (roster r)
            /\ m = mailOptions w (artifact w p)
            /\ attachment_path m = pdf_path w p
            /\ In (EvPdf p (attachment_path m)) (main w r d).2
            /\ is_Some (pdfs (main w r d).1 !! attachment_path m).
Proof.
  intros Hm.
  destruct (lerCSV (loadSentEmails (sent_emails d)) r) as [kept|msg] eqn:H.
  - destruct (main_trace w r d kept H) as [_ Ha].
    destruct (main_store w r d kept H) as [_ Hw].
    pose proof Hm as Hm'. rewrite Ha in Hm'.
    apply in_map_iff in Hm' as (p & <- & Hp).
    exists p. split; [|split; [reflexivity|split; [reflexivity|split]]].
    + apply select_by_index_In in Hp. rewrite (lerCSV_roster _ _ _ H) in Hp.
      now apply filter_In in Hp as [? _].
    + apply written_In. rewrite Hw. simpl.
      now apply (in_map (fun q => (q, pdf_path w q))).
    + exact (proj1 (proj2 (main_pdfs w r d)) _ Hm).
  - rewrite (main_rejected w r d msg H) in Hm. destruct Hm.
Qed.

Lemma attachment_is_on_disk_witness :
  exists p, In p (roster sample_roster)
            /\ mailOptions sample_env
                 (artifact sample_env (on_data (sample_row "Carla" "carla@x.com")))
               = mailOptions sample_env (artifact sample_env p)
            /\ "/srv/jsautomail/pdfs/Carla - (carla@x.com).pdf"
               = pdf_path sample_env p
            /\ In (EvPdf p "/srv/jsautomail/pdfs/Carla - (carla@x.com).pdf")
                  (main sample_env sample_roster sample_disk).2
            /\ is_Some (pdfs (main sample_env sample_roster sample_disk).1
                        !! "/srv/jsautomail/pdfs/Carla - (carla@x.com).pdf").
Proof.
  apply (attachment_is_on_disk sample_env sample_roster sample_disk
           (mailOptions sample_env
              (artifact sample_env (on_data (sample_row "Carla" "carla@x.com"))))).
  vm_compute. right. right. now left.
Defined.

(** X12. What [gerarPDF] writes for a participant whose name has no [$],
    when the template is there and the engine works: it returns the
    certificate path and leaves at that path the template with its
    leftmost placeholder, and only that one, replaced by the name as it
    is; nothing else on the disk changes. *)
Theorem render_replaces_leftmost_placeholder (w : Env) (i : nat) (d : Disk)
    (content pre post n : string) (p : Participant) :
  templates w !! "certificate.html" = Some content ->
  engine_ok w i = true ->
  name p = Some n -> contains_char "$" n = false ->
  content = pre +:+ PLACEHOLDER +:+ post ->
  (forall pre' post', content = pre' +:+ PLACEHOLDER +:+ post' ->
                      String.length pre <= String.length pre') ->
  gerarPDF w i "certificate.html" p d
  = (Some (pdf_path w p),
     {| sent_emails := sent_emails d;
        pdfs := <[pdf_path w p := pre +:+ n +:+ post]> (pdfs d) |}).
Proof.
  intros Ht Hok Hn Hd Hc Hleft.
  assert (render_html content p = pre +:+ n +:+ post) as Hr.
  { destruct (find_first PLACEHOLDER content) as [[pre1 post1]|] eqn:F.
    - pose proof (RenderFacts.find_first_spec _ _ _ _ F) as Hc1.
      pose proof (find_first_leftmost _ _ _ _ F pre post Hc) as L1.
      pose proof (Hleft pre1 post1 Hc1) as L2.
      assert (pre1 = pre /\ PLACEHOLDER +:+ post1 = PLACEHOLDER +:+ post)
        as [-> Hp].
      { apply app_inv_length; [congruence | lia]. }
      apply (inj (String.app PLACEHOLDER)) in Hp as ->.
      now apply (RenderFacts.render_html_plain_name content pre post n p Hn Hd).
    - now destruct (find_first_none _ _ F pre post). }
  unfold gerarPDF. now rewrite Ht, Hok, Hr.
Qed.

Lemma render_replaces_leftmost_placeholder_witness :
  gerarPDF sample_env 0 "certificate.html" ana sample_disk
  = (Some (pdf_path sample_env ana),
     {| sent_emails := sent_emails sample_disk;
        pdfs := <[pdf_path sample_env ana := "<h1>" +:+ "Ana Silva" +:+ "</h1>"]>
                  (pdfs sample_disk) |}).
Proof.
  apply (render_replaces_leftmost_placeholder sample_env 0 sample_disk
           ("<h1>" +:+ PLACEHOLDER +:+ "</h1>") "<h1>" "</h1>" "Ana Silva" ana);
    try reflexivity.
  intros pre' post' H.
  destruct pre' as [|a [|b [|c [|x pre']]]]; try discriminate H;
    simpl; lia.
Defined.

(** X13. A template without the placeholder is not an error for
    [gerarPDF]: when the template is there and the engine works, it
    returns the certificate path and writes the template unchanged at
    that path, for every participant. *)
Theorem render_without_placeholder (w : Env) (i : nat) (d : Disk)
    (content : string) (p : Participant) :
  templates w !! "certificate.html" = Some content ->
  engine_ok w i = true ->
  (forall pre post, content <> pre +:+ PLACEHOLDER +:+ post) ->
  gerarPDF w i "certificate.html" p d
  = (Some (pdf_path w p),
     {| sent_emails := sent_emails d;
        pdfs := <[pdf_path w p := content]> (pdfs d) |}).
Proof.
  intros Ht Hok H.
  assert (render_html content p = content) as Hr.
  { unfold render_html.
    destruct (find_first PLACEHOLDER content) as [[pre post]|] eqn:F.
    - now destruct (H pre post (RenderFacts.find_first_spec _ _ _ _ F)).
    - now apply RenderFacts.replace_absent. }
  unfold gerarPDF. now rewrite Ht, Hok, Hr.
Qed.

Lemma render_without_placeholder_witness :
  gerarPDF
    {| cwd := "/srv/jsautomail";
       JSAUTOMAIL_EMAIL := None; JSAUTOMAIL_USERNAME := None;
       templates := {[ "certificate.html" := "<h1>Certificado</h1>" ]};
       engine_ok := fun _ => true; sendMail_ok := fun _ => true;
       append_ok := fun _ => true |}
    0 "certificate.html" cash sample_disk
  = (Some "/srv/jsautomail/pdfs/Ca$$h Prize - (cash@x.com).pdf",
     {| sent_emails := None;
        pdfs := <["/srv/jsautomail/pdfs/Ca$$h Prize - (cash@x.com).pdf"
                  := "<h1>Certificado</h1>"]> ∅ |}).
Proof.
  apply (render_without_placeholder
           {| cwd := "/srv/jsautomail";
              JSAUTOMAIL_EMAIL := None; JSAUTOMAIL_USERNAME := None;
              templates := {[ "certificate.html" := "<h1>Certificado</h1>" ]};
              engine_ok := fun _ => true; sendMail_ok := fun _ => true;
              append_ok := fun _ => true |}
           0 sample_disk "<h1>Certificado</h1>" cash); try reflexivity.
  intros pre post H.
  assert (find_first PLACEHOLDER "<h1>Certificado</h1>" = None) as F
    by reflexivity.
  exact (find_first_none _ _ F pre post H).
Defined.

(** X14. Where [gerarPDF] writes: when the working directory is an
    absolute path in normal form and neither the name nor the address of
    the participant holds a slash, a successful [gerarPDF] returns and
    writes the path made of the working directory, the [pdfs] directory
    and the file name [<name> - (<address>).pdf]; that file name is the
    name of the attachment of the participant's mail, and that path its
    attachment path. *)
Theorem certificate_file_name (w : Env) (i : nat) (d : Disk)
    (content : string) (p : Participant) :
  templates w !! "certificate.html" = Some content ->
  engine_ok w i = true ->
  Path.join (Path.normalize [] (split "/" (cwd w))) = cwd w ->
  contains_char "/" (to_string (name p)) = false ->
  contains_char "/" (to_string (email p)) = false ->
  let file := to_string (name p) +:+ " - (" +:+ to_string (email p) +:+ ").pdf" in
  let path := cwd w +:+ "/pdfs" +:+ String "/" file in
  (gerarPDF w i "certificate.html" p d).1 = Some path
  /\ pdfs (gerarPDF w i "certificate.html" p d).2 !! path
     = Some (render_html content p)
  /\ attachment_filename (mailOptions w (artifact w p)) = file
  /\ attachment_path (mailOptions w (artifact w p)) = path.
Proof.
  intros Ht Hok Hcwd Hn He file path.
  assert (contains_char "/" file = false) as Hs.
  { unfold file. rewrite !contains_app, Hn, He. reflexivity. }
  pose proof (file_name_long (to_string (name p)) (to_string (email p))) as Hl.
  fold file in Hl.
  assert (pdf_path w p = path) as Hp.
  { unfold pdf_path, path. fold file. rewrite (resolve_pdfs _ _ Hs Hl).
    now rewrite Hcwd. }
  unfold gerarPDF. rewrite Ht, Hok, Hp. simpl.
  split; [reflexivity|]. split; [apply lookup_insert_eq|].
  split; [|exact Hp].
  rewrite Hp. unfold path. rewrite <- app_assoc.
  apply basename_snoc; [exact Hs|].
  intros E. rewrite E in Hl. simpl in Hl. lia.
Qed.

Lemma certificate_file_name_witness :
  (gerarPDF sample_env 0 "certificate.html" ana sample_disk).1
  = Some "/srv/jsautomail/pdfs/Ana Silva - (ana@x.com).pdf"
  /\ pdfs (gerarPDF sample_env 0 "certificate.html" ana sample_disk).2
       !! "/srv/jsautomail/pdfs/Ana Silva - (ana@x.com).pdf"
     = Some (render_html "<h1>{{participant.name}}</h1>" ana)
  /\ attachment_filename (mailOptions sample_env (artifact sample_env ana))
     = "Ana Silva - (ana@x.com).pdf"
  /\ attachment_path (mailOptions sample_env (artifact sample_env ana))
     = "/srv/jsautomail/pdfs/Ana Silva - (ana@x.com).pdf".
Proof.
  apply (certificate_file_name sample_env 0 sample_disk
           "<h1>{{participant.name}}</h1>" ana); reflexivity.
Defined.
